(** * Material explorer (BaikalStandalone/Application/material_explorer.cpp)

    A shallow embedding of the material explorer panel: the table of uber
    layers, the constructor that collects the enabled layers, the per-frame
    [DrawExplorer] as a state transformer over the explorer, its function
    statics and the store of graph objects, and the slot geometry of
    [MaterialExplorer::Node] in binary32 arithmetic. *)

From Stdlib Require Import ZArith List Lia QArith Qpower Lqa SpecFloat.
From stdpp Require Import base option strings list gmap.

Local Open Scope Z_scope.

(** ** Machine numbers *)

(** [int] is a 32-bit two's complement integer held in a [Z]. *)
Definition wrap_int (z : Z) : Z := (z + 2 ^ 31) mod 2 ^ 32 - 2 ^ 31.

(** [std::uint32_t] conversion. *)
Definition to_u32 (z : Z) : Z := z mod 2 ^ 32.

Definition int_add (a b : Z) : Z := wrap_int (a + b).

(** [float] is IEEE binary32: 24 bits of precision, [emax = 128], round to
    nearest even, as given by the specification floats of the library. *)
Definition float : Type := spec_float.

Definition fadd : float -> float -> float := SFadd 24 128.
Definition fmul : float -> float -> float := SFmul 24 128.
Definition fdiv : float -> float -> float := SFdiv 24 128.

(** [(float)n] for an integer [n]. *)
Definition float_of_int (n : Z) : float := binary_normalize 24 128 n 0 false.

(** [(int)f]: truncation toward zero.  Outside the range of [int] (and for
    infinities and NaN) the conversion has no defined result in C++; the
    model returns what the x86 conversion instruction delivers there, the
    integer indefinite value [-2^31]. *)
Definition int_of_float (f : float) : Z :=
  match f with
  | S754_zero _ => 0
  | S754_finite s m e =>
      let mag := if 0 <=? e then Z.pos m * 2 ^ e else Z.pos m / 2 ^ (- e) in
      let v := if s then - mag else mag in
      if (- 2 ^ 31 <=? v) && (v <? 2 ^ 31) then v else - 2 ^ 31
  | S754_infinity _ | S754_nan => - 2 ^ 31
  end.

(** The rational a finite float stands for; [None] for infinities and NaN. *)
Definition float_value (f : float) : option Q :=
  match f with
  | S754_zero _ => Some 0%Q
  | S754_finite s m e =>
      let mag := if 0 <=? e then inject_Z (Z.pos m * 2 ^ e)
                 else Qmake (Z.pos m) (Z.to_pos (2 ^ (- e))) in
      Some (if s then Qopp mag else mag)
  | S754_infinity _ | S754_nan => None
  end.

(** Number of binary digits of a mantissa. *)
Definition digits (p : positive) : Z := Z.pos (digits2_pos p).

(** An operation whose float result is the exact result on its operands. *)
Definition exact (op : float -> float -> float) (qop : Q -> Q -> Q)
    (a b : float) : Prop :=
  match float_value a, float_value b, float_value (op a b) with
  | Some va, Some vb, Some vr => (vr == qop va vb)%Q
  | _, _, _ => False
  end.

(** An integer whose conversion to [float] is exact. *)
Definition exact_int (n : Z) : Prop :=
  match float_value (float_of_int n) with
  | Some v => (v == inject_Z n)%Q
  | None => False
  end.

(** [y] lies strictly between [pos_y] and [pos_y + size_y], as numbers. *)
Definition strictly_inside (pos_y size_y y : float) : Prop :=
  match float_value pos_y, float_value size_y, float_value y with
  | Some py, Some sy, Some yv => (py < yv /\ yv < py + sy)%Q
  | _, _, _ => False
  end.


(** ** Vectors *)

Module ImVec2.
Record t : Type := make { x : float; y : float }.
End ImVec2.

Module ImVec4.
Record t : Type := make { x : float; y : float; z : float; w : float }.
End ImVec4.

(** [RadeonRays::int2]. *)
Module int2.
Record t : Type := make { x : Z; y : Z }.
End int2.

(** [operator+] on [ImVec2] (lines 26-27). *)
Definition ImVec2_add (lhs rhs : ImVec2.t) : ImVec2.t :=
  ImVec2.make (fadd (ImVec2.x lhs) (ImVec2.x rhs))
              (fadd (ImVec2.y lhs) (ImVec2.y rhs)).

(** ** Layers *)

(** The enumerators of [UberV2Material::Layers] the file names. *)
Inductive Layers : Type :=
  | kEmissionLayer
  | kTransparencyLayer
  | kCoatingLayer
  | kReflectionLayer
  | kDiffuseLayer
  | kRefractionLayer
  | kSSSLayer
  | kShadingNormalLayer.

#[global] Instance Layers_eq_dec : EqDecision Layers.
Proof. solve_decision. Defined.

(** [LayerDesc]: a layer with the names of its inputs. *)
Definition LayerDesc : Type := Layers * list string.

(** [MaterialExplorer::GetUberLayersDesc] (lines 217-272). *)
Definition GetUberLayersDesc : list LayerDesc :=
  [ (kEmissionLayer,
      [ "uberv2.emission.color" ]);
    (kCoatingLayer,
      [ "uberv2.coating.color"; "uberv2.coating.ior" ]);
    (kReflectionLayer,
      [ "uberv2.reflection.color";
        "uberv2.reflection.roughness";
        "uberv2.reflection.anisotropy";
        "uberv2.reflection.anisotropy_rotation";
        "uberv2.reflection.ior";
        "uberv2.reflection.metalness" ]);
    (kDiffuseLayer,
      [ "uberv2.diffuse.color" ]);
    (kRefractionLayer,
      [ "uberv2.refraction.color";
        "uberv2.refraction.roughness";
        "uberv2.refraction.ior" ]);
    (kTransparencyLayer,
      [ "uberv2.transparency" ]);
    (kShadingNormalLayer,
      [ "uberv2.shading_normal" ]);
    (kSSSLayer,
      [ "uberv2.sss.absorption_color";
        "uberv2.sss.scatter_color";
        "uberv2.sss.subsurface_color";
        "uberv2.sss.absorption_distance";
        "uberv2.sss.scatter_distance";
        "uberv2.sss.scatter_direction" ]) ]%string.

(** All enumerators, in the order the constructor tests them. *)
Definition all_layers : list Layers :=
  [ kEmissionLayer; kTransparencyLayer; kCoatingLayer; kReflectionLayer;
    kDiffuseLayer; kRefractionLayer; kSSSLayer; kShadingNormalLayer ].

(** ** What the file takes from the rest of the renderer

    [material_explorer.h], [UberV2Material], [GraphScheme] and [UberTree] are
    declared elsewhere.  Their part in this file is an interface: the types
    are opaque, the operations are the ones the file calls. *)

(** [GraphScheme::Node], as far as [DrawExplorer] reads it. *)
Module SchemeNode.
Record t : Type := make { id : Z; pos : int2.t; size : int2.t }.
End SchemeNode.

Class Renderer : Type := {
  (** [UberV2Material], [InputMap], [UberTree] and [GraphScheme] objects *)
  Material : Type;
  InputMap : Type;
  UberTree : Type;
  GraphScheme : Type;
  (** the number each [UberV2Material::Layers] enumerator stands for *)
  layer_value : Layers -> Z;
  (** [UberV2Material::GetLayers], a [std::uint32_t] bit mask *)
  GetLayers : Material -> Z;
  (** [material->GetInputValue(name).input_map_value] *)
  GetInputValue_input_map_value : Material -> string -> InputMap;
  (** [UberTree::Create] *)
  UberTree_Create : InputMap -> UberTree;
  (** [GraphScheme::Create] *)
  GraphScheme_Create : UberTree -> int2.t -> GraphScheme;
  (** [GraphScheme::GetNodes] *)
  GetNodes : GraphScheme -> list SchemeNode.t;
  (** [GraphScheme::UpdateNodePos], on the object it is called on *)
  UpdateNodePos : Z -> int2.t -> GraphScheme -> GraphScheme
}.

(** Graph objects live in a store; [m_graph] is a [std::shared_ptr] into
    it.  An object leaves the store when its last owner lets go of it. *)
Abbreviation loc := positive.

(** The fields of [MaterialExplorer]. *)
Record MaterialExplorer `{Renderer} : Type := {
  m_material : Material;
  m_layers : list LayerDesc;
  m_graph : option loc;
  m_selected_input : string
}.

(** What ImGui answers during one frame.  The answers depend on the
    toolkit's own retained state and on the mouse, so they are inputs of the
    frame: [Selectable k] is the result of the [k]-th call of
    [ImGui::Selectable] in the frame, [IsItemActive k] that of
    [ImGui::IsItemActive] after the [k]-th node button. *)
Record ImGuiFrame : Type := {
  Selectable : nat -> bool;
  Checkbox : bool;
  IsItemActive : nat -> bool;
  IsMouseDragging : Z -> bool;
  MouseDelta : ImVec2.t;
  IsWindowHovered : bool;
  IsAnyItemActive : bool
}.

(** A call of [ImGui::Selectable(input.c_str(), selected_id == input_selected)],
    with the value of [selected_id] at the call. *)
Record SelectableCall : Type := {
  label : string;
  selected : bool;
  index : Z
}.

(** The variables of the loop that draws the layers list (lines 107-120). *)
Record ListVars : Type := {
  selected_id : Z;
  input_name : string;
  list_input_selected : Z;
  calls : list SelectableCall
}.

(** The explorer, the function statics of [DrawExplorer] and the store.
    [co_owned] holds the graph objects that have an owner besides the
    explorer. *)
Record State `{Renderer} : Type := {
  this : MaterialExplorer;
  show_grid : bool;
  input_selected : Z;
  scrolling : ImVec2.t;
  heap : gmap loc GraphScheme;
  co_owned : gset loc
}.

Section Explorer.
Context `{R : Renderer}.

(** ** The constructor (lines 51-87) *)

(** [std::find_if] followed by the dereference: [None] stands for the
    dereference of [end()]. *)
Definition find_layer (layers_desc : list LayerDesc) (layers : Layers)
  : option LayerDesc :=
  List.find
    (fun desc : LayerDesc =>
       if to_u32 (layer_value (fst desc)) =? to_u32 (layer_value layers)
       then true else false)
    layers_desc.

(** [layers & flag], as the condition of an [if]. *)
Definition layer_enabled (layers : Z) (flag : Layers) : bool :=
  negb (Z.land layers (to_u32 (layer_value flag)) =? 0).

(** One [if (layers & flag) m_layers.push_back(find_layer(flag));]. *)
Definition collect (layers_desc : list LayerDesc) (layers : Z) (flag : Layers)
    (acc : list LayerDesc) : option (list LayerDesc) :=
  if layer_enabled layers flag
  then desc ← find_layer layers_desc flag; Some (acc ++ [desc])
  else Some acc.

Definition MaterialExplorer_ctor (material : Material)
  : option MaterialExplorer :=
  let layers := GetLayers material in
  let layers_desc := GetUberLayersDesc in
  (* collect all supported layers *)
  l ← collect layers_desc layers kEmissionLayer [];
  l ← collect layers_desc layers kTransparencyLayer l;
  l ← collect layers_desc layers kCoatingLayer l;
  l ← collect layers_desc layers kReflectionLayer l;
  l ← collect layers_desc layers kDiffuseLayer l;
  l ← collect layers_desc layers kRefractionLayer l;
  l ← collect layers_desc layers kSSSLayer l;
  l ← collect layers_desc layers kShadingNormalLayer l;
  Some {| m_material := material;
          m_layers := l;
          m_graph := None;
          m_selected_input := "" |}.

(** ** DrawExplorer (lines 89-215)

    Calls that only emit widgets or primitives to ImGui (texts, the grid,
    the node rectangles, layout and style calls) change nothing the explorer
    or its statics hold and are left out; the [Selectable] calls are kept as
    a log because they are the list the user sees. *)

Definition left_side_width : Z := 150.

(** The body of the inner loop, lines 113-118. *)
Definition list_input (ui : ImGuiFrame) (v : ListVars) (input : string)
  : ListVars :=
  let call := {| label := input;
                 selected := selected_id v =? list_input_selected v;
                 index := selected_id v |} in
  let clicked := Selectable ui (length (calls v)) in
  {| selected_id := wrap_int (selected_id v + 1);
     input_name := if clicked then input else input_name v;
     list_input_selected :=
       if clicked then selected_id v else list_input_selected v;
     calls := calls v ++ [call] |}.

Definition list_layer (ui : ImGuiFrame) (v : ListVars) (layer : LayerDesc)
  : ListVars :=
  fold_left (list_input ui) (snd layer) v.

(** Lines 107-120. *)
Definition layers_list (ui : ImGuiFrame) (layers : list LayerDesc)
    (input_selected0 : Z) : ListVars :=
  fold_left (list_layer ui) layers
    {| selected_id := 0;
       input_name := "";
       list_input_selected := input_selected0;
       calls := [] |}.

(** The address a [std::shared_ptr] holds, as a set. *)
Definition held (p : option loc) : gset loc :=
  match p with
  | Some l => {[ l ]}
  | None => ∅
  end.

(** A [std::shared_ptr] lets go of its object: the object is destroyed
    unless it has another owner. *)
Definition release (p : option loc) (co : gset loc)
    (h : gmap loc GraphScheme) : gmap loc GraphScheme :=
  match p with
  | Some l => if decide (l ∈ co) then h else delete l h
  | None => h
  end.

(** Lines 137-143.  The right-hand side of the assignment to [m_graph] is
    evaluated first: the new graph object is allocated while the old one is
    still held, so its address differs from the one [m_graph] holds; the
    assignment then releases the old object. *)
Definition select_input (input_name : string) (e : MaterialExplorer)
    (co : gset loc) (h : gmap loc GraphScheme)
  : MaterialExplorer * gmap loc GraphScheme :=
  if negb (String.eqb input_name "")
     && negb (String.eqb (m_selected_input e) input_name)
  then
    let input_map := GetInputValue_input_map_value (m_material e) input_name in
    let l := fresh (dom h ∪ held (m_graph e)) in
    ({| m_material := m_material e;
        m_layers := m_layers e;
        m_graph := Some l;
        m_selected_input := input_name |},
     release (m_graph e) co
       (<[l := GraphScheme_Create (UberTree_Create input_map)
                (int2.make (left_side_width + 10) 100)]> h))
  else (e, h).

(** The position handed to [UpdateNodePos] (lines 197-200). *)
Definition dragged_pos (ui : ImGuiFrame) (node : SchemeNode.t) : int2.t :=
  let delta := MouseDelta ui in
  int2.make
    (int_add (int2.x (SchemeNode.pos node)) (int_of_float (ImVec2.x delta)))
    (int_add (int2.y (SchemeNode.pos node)) (int_of_float (ImVec2.y delta))).

(** The body of the loop over the nodes, as far as it acts on the graph
    (lines 192-202).  [k] counts the nodes drawn so far, [g] is the object
    [m_graph] points to, [log] the calls of [UpdateNodePos] made on it. *)
Definition drag_node (ui : ImGuiFrame)
    (acc : nat * GraphScheme * list (Z * int2.t)) (node : SchemeNode.t)
  : nat * GraphScheme * list (Z * int2.t) :=
  let '(k, g, log) := acc in
  let node_moving_active := IsItemActive ui k in
  if node_moving_active && IsMouseDragging ui 0
  then
    let new_pos := dragged_pos ui node in
    (S k, UpdateNodePos (SchemeNode.id node) new_pos g,
     log ++ [(SchemeNode.id node, new_pos)])
  else (S k, g, log).

(** Lines 163-205.  [nodes] is a copy taken before the loop; the updates go
    to the object [m_graph] points to. *)
Definition display_nodes (ui : ImGuiFrame) (m_graph : option loc)
    (h : gmap loc GraphScheme) : gmap loc GraphScheme * list (Z * int2.t) :=
  match m_graph with
  | None => (h, [])
  | Some l =>
      match h !! l with
      | None => (h, [])
      | Some g =>
          let nodes := GetNodes g in
          let '(_, g', log) := fold_left (drag_node ui) nodes (0%nat, g, []) in
          (<[l := g']> h, log)
      end
  end.

(** What a frame shows and does besides changing the state: the
    [Selectable] calls of the layers list and the [UpdateNodePos] calls made
    on the graph. *)
Record FrameLog : Type := {
  selectable_calls : list SelectableCall;
  update_calls : list (Z * int2.t)
}.

Definition DrawExplorer (win_size : ImVec2.t) (ui : ImGuiFrame) (s : State)
  : State * FrameLog :=
  (* Draw a list of layers on the left side *)
  let v := layers_list ui (m_layers (this s)) (input_selected s) in
  (* draw canvas with inputs graph *)
  let show_grid' := if Checkbox ui then negb (show_grid s) else show_grid s in
  let '(e, h) :=
    select_input (input_name v) (this s) (co_owned s) (heap s) in
  (* Display nodes *)
  let '(h', log) := display_nodes ui (m_graph e) h in
  (* Scrolling *)
  let scrolling' :=
    if IsWindowHovered ui && negb (IsAnyItemActive ui) && IsMouseDragging ui 2
    then ImVec2_add (scrolling s) (MouseDelta ui)
    else scrolling s in
  ({| this := e;
      show_grid := show_grid';
      input_selected := list_input_selected v;
      scrolling := scrolling';
      heap := h';
      co_owned := co_owned s |},
   {| selectable_calls := calls v; update_calls := log |}).

(** A run of frames. *)
Definition frames (win_size : ImVec2.t) (uis : list ImGuiFrame) (s : State)
  : State :=
  fold_left (fun s ui => fst (DrawExplorer win_size ui s)) uis s.

(** The input clicked in a frame: the name the layers list leaves in
    [input_name], empty when no [Selectable] reported a click. *)
Definition clicked_input (ui : ImGuiFrame) (s : State) : string :=
  input_name (layers_list ui (m_layers (this s)) (input_selected s)).

(** The graph object whose nodes a frame displays, if any: the one
    [m_graph] points to once lines 137-143 are done. *)
Definition displayed_graph (ui : ImGuiFrame) (s : State)
  : option (loc * GraphScheme) :=
  let '(e, h) :=
    select_input (clicked_input ui s) (this s) (co_owned s) (heap s) in
  l ← m_graph e; g ← h !! l; Some (l, g).

(** The names the layers list shows, in order. *)
Definition listed_inputs (layers : list LayerDesc) : list string :=
  mjoin (snd <$> layers).

End Explorer.

(** ** MaterialExplorer::Node (lines 278-294) *)

Module Node.
Record t : Type := make {
  id : Z;
  name : string;
  pos : ImVec2.t;
  size : ImVec2.t;
  value : float;
  color : ImVec4.t;
  inputs_count : Z;
  outputs_count : Z
}.
End Node.

(** [pos.y + size.y * ((float)slot_no + 1) / ((float)count + 1)], shared by
    the two slot functions. *)
Definition slot_y (pos_y size_y : float) (slot_no count : Z) : float :=
  fadd pos_y
    (fdiv (fmul size_y (fadd (float_of_int slot_no) (float_of_int 1)))
          (fadd (float_of_int count) (float_of_int 1))).

Definition GetInputSlotPos (n : Node.t) (slot_no : Z) : ImVec2.t :=
  ImVec2.make
    (ImVec2.x (Node.pos n))
    (slot_y (ImVec2.y (Node.pos n)) (ImVec2.y (Node.size n))
            slot_no (Node.inputs_count n)).

Definition GetOutputSlotPos (n : Node.t) (slot_no : Z) : ImVec2.t :=
  ImVec2.make
    (fadd (ImVec2.x (Node.pos n)) (ImVec2.x (Node.size n)))
    (slot_y (ImVec2.y (Node.pos n)) (ImVec2.y (Node.size n))
            slot_no (Node.outputs_count n)).

(** The product, the quotient and the sum of the slot formula do not
    round. *)
Definition slot_y_exact (pos_y size_y : float) (slot_no count : Z) : Prop :=
  let one := float_of_int 1 in
  let a := fadd (float_of_int slot_no) one in
  let d := fadd (float_of_int count) one in
  let m := fmul size_y a in
  let t := fdiv m d in
  exact fmul Qmult size_y a
  /\ exact fdiv Qdiv m d
  /\ exact fadd Qplus pos_y t.

(** The number a mantissa and an exponent stand for, and the relative
    error of one rounding of a normal number, [2^-23]. *)
Definition F2Q (m e : Z) : Q := inject_Z m * 2 ^ e.

Definition eps : Q := 1 # 8388608.

(** The distance between two slots of a node of height [sy], and the place
    of a slot as the formula denotes it. *)
Definition slot_spacing (sy : Q) (count : Z) : Q := sy / (inject_Z count + 1).

Definition slot_ideal_y (py sy : Q) (slot_no count : Z) : Q :=
  py + (inject_Z slot_no + 1) * slot_spacing sy count.

(** A node in ordinary range: [pos_y] is a number of the format, the height
    is between [2^-100] and [2^100], and the node lies within [2^20] slot
    spacings of the origin, [|pos_y| + size_y <= 2^20 * size_y / (count + 1)]. *)
Definition ordinary_range (pos_y size_y : float) (count : Z) : Prop :=
  valid_binary 24 128 pos_y = true
  /\ match float_value pos_y, float_value size_y with
     | Some py, Some sy =>
         (2 ^ (-100) <= sy /\ sy <= 2 ^ 100
          /\ (inject_Z count + 1) * (sy - py) <= 2 ^ 20 * sy
          /\ (inject_Z count + 1) * (sy + py) <= 2 ^ 20 * sy)%Q
     | _, _ => False
     end.

(** [y] is less than half a slot spacing away from the place of the slot. *)
Definition within_half_spacing (pos_y size_y : float) (slot_no count : Z)
    (y : float) : Prop :=
  match float_value pos_y, float_value size_y, float_value y with
  | Some py, Some sy, Some yv =>
      (slot_ideal_y py sy slot_no count - slot_spacing sy count / 2 < yv
       /\ yv < slot_ideal_y py sy slot_no count + slot_spacing sy count / 2)%Q
  | _, _, _ => False
  end.

(** ** Notions the properties are stated with *)

(** The descriptor the table holds for a layer. *)
Definition desc_of (k : Layers) : LayerDesc :=
  default (k, []) (List.find (fun d => bool_decide (fst d = k)) GetUberLayersDesc).

Section Enabled.
Context `{R : Renderer}.

(** The descriptors of the layers enabled in a mask, in the order the
    constructor tests the flags. *)
Definition enabled_descs (layers : Z) : list LayerDesc :=
  mjoin ((fun k => if layer_enabled layers k then [desc_of k] else [])
           <$> all_layers).

End Enabled.

Section Updates.
Context `{R : Renderer}.

(** A sequence of [UpdateNodePos] calls applied to a graph object. *)
Definition apply_updates (log : list (Z * int2.t)) (g : GraphScheme)
  : GraphScheme :=
  fold_left (fun g c => UpdateNodePos (fst c) (snd c) g) log g.

(** The [UpdateNodePos] calls the node loop makes on the nodes [nodes],
    the first of which is the [k]-th node drawn. *)
Fixpoint drag_calls (ui : ImGuiFrame) (k : nat) (nodes : list SchemeNode.t)
  : list (Z * int2.t) :=
  match nodes with
  | [] => []
  | node :: nodes =>
      (if IsItemActive ui k && IsMouseDragging ui 0
       then [(SchemeNode.id node, dragged_pos ui node)] else [])
      ++ drag_calls ui (S k) nodes
  end.

End Updates.

(** State of the list loop after the names [names] have been shown: the
    [k]-th call carries the [k]-th name and the counter value [k] (as an
    [int]). *)
Definition listed (names : list string) (v : ListVars) : Prop :=
  label <$> calls v = names
  /\ index <$> calls v
     = (fun k : nat => wrap_int (Z.of_nat k)) <$> seq 0 (length names)
  /\ selected_id v = wrap_int (Z.of_nat (length names)).

(** What the list loop has picked up after the names [names]: the name and
    the counter value of the last entry that reported a click. *)
Definition picked (ui : ImGuiFrame) (names : list string) (v : ListVars)
  : Prop :=
  forall (k : nat) (name : string),
    names !! k = Some name ->
    Selectable ui k = true ->
    (forall j, (k < j < length names)%nat -> Selectable ui j = false) ->
    input_name v = name /\ list_input_selected v = wrap_int (Z.of_nat k).

(** ** A small renderer to run the model on

    Layer flags are the bits 0 to 7 in the order the constructor tests them;
    a material is its layer mask; a graph is the list of its nodes and
    [UpdateNodePos] moves the nodes that carry the id. *)

Definition sample_layer_value (k : Layers) : Z :=
  match k with
  | kEmissionLayer => 1
  | kTransparencyLayer => 2
  | kCoatingLayer => 4
  | kReflectionLayer => 8
  | kDiffuseLayer => 16
  | kRefractionLayer => 32
  | kSSSLayer => 64
  | kShadingNormalLayer => 128
  end.

Definition sample_update (id : Z) (p : int2.t) (g : list SchemeNode.t)
  : list SchemeNode.t :=
  map (fun n => if SchemeNode.id n =? id
                then SchemeNode.make id p (SchemeNode.size n) else n) g.

Definition sample_create (tree : string) (origin : int2.t)
  : list SchemeNode.t :=
  [ SchemeNode.make 0 origin (int2.make 120 40);
    SchemeNode.make 1 (int2.make (int2.x origin + 200) (int2.y origin))
                    (int2.make 120 40) ].

Definition sample_renderer : Renderer := {|
  Material := Z;
  InputMap := string;
  UberTree := string;
  GraphScheme := list SchemeNode.t;
  layer_value := sample_layer_value;
  GetLayers := fun m => m;
  GetInputValue_input_map_value := fun _ name => name;
  UberTree_Create := fun input_map => input_map;
  GraphScheme_Create := sample_create;
  GetNodes := fun g => g;
  UpdateNodePos := sample_update
|}.

(** A frame in which the [k]-th entry of the layers list is clicked. *)
Definition click_frame (k : nat) : ImGuiFrame := {|
  Selectable := fun i => Nat.eqb i k;
  Checkbox := false;
  IsItemActive := fun _ => false;
  IsMouseDragging := fun _ => false;
  MouseDelta := ImVec2.make (S754_zero false) (S754_zero false);
  IsWindowHovered := true;
  IsAnyItemActive := false
|}.

(** A frame in which the [k]-th node is held and dragged with the left
    button by (3.75, -4.5). *)
Definition drag_frame (k : nat) : ImGuiFrame := {|
  Selectable := fun _ => false;
  Checkbox := false;
  IsItemActive := fun i => Nat.eqb i k;
  IsMouseDragging := fun button => button =? 0;
  MouseDelta := ImVec2.make (fdiv (float_of_int 15) (float_of_int 4))
                            (fdiv (float_of_int (-9)) (float_of_int 2));
  IsWindowHovered := true;
  IsAnyItemActive := true
|}.

Definition sample_win_size : ImVec2.t :=
  ImVec2.make (float_of_int 800) (float_of_int 600).

(** An explorer on a material with the emission, reflection and diffuse
    layers, before its first frame and with a graph on display. *)
Definition sample_explorer : @MaterialExplorer sample_renderer :=
  @Build_MaterialExplorer sample_renderer
    25
    [ desc_of kEmissionLayer; desc_of kReflectionLayer; desc_of kDiffuseLayer ]
    None
    "".

Definition sample_state : @State sample_renderer := {|
  this := sample_explorer;
  show_grid := true;
  input_selected := -1;
  scrolling := ImVec2.make (S754_zero false) (S754_zero false);
  heap := ∅;
  co_owned := ∅
|}.

Definition sample_graph : list SchemeNode.t :=
  sample_create "uberv2.diffuse.color" (int2.make 160 100).

Definition sample_state_graph : @State sample_renderer := {|
  this := @Build_MaterialExplorer sample_renderer
            25 (m_layers sample_explorer) (Some 1%positive)
            "uberv2.diffuse.color";
  show_grid := true;
  input_selected := 7;
  scrolling := ImVec2.make (S754_zero false) (S754_zero false);
  heap := {[ 1%positive := sample_graph ]};
  co_owned := ∅
|}.

(** A node at (160, 100) of size 120 x 40 with three inputs and three
    outputs, and a node of height 1 placed at y = 2^24. *)
Definition sample_color : ImVec4.t :=
  ImVec4.make (float_of_int 1) (float_of_int 1) (float_of_int 1)
              (float_of_int 1).



(** The node at (160, 100) with two inputs: its slots are at thirds of the
    height, which no float holds. *)
Definition thirds_node : Node.t :=
  Node.make 3 "thirds"
    (ImVec2.make (float_of_int 160) (float_of_int 100))
    (ImVec2.make (float_of_int 120) (float_of_int 40))
    (S754_zero false) sample_color 2 1.

(** ** The remaining functions of the file *)

Definition fsub : float -> float -> float := SFsub 24 128.

(** [operator-] on [ImVec2] (lines 29-30). *)
Definition ImVec2_sub (lhs rhs : ImVec2.t) : ImVec2.t :=
  ImVec2.make (fsub (ImVec2.x lhs) (ImVec2.x rhs))
              (fsub (ImVec2.y lhs) (ImVec2.y rhs)).

Section Create.
Context `{R : Renderer}.

(** [MaterialExplorer::Create] (lines 46-49): a [MaterialExplorerConcrete]
    is constructed, which runs the constructor, and the shared object is
    copy-constructed from it, field by field. *)
Definition MaterialExplorer_Create (material : Material)
  : option MaterialExplorer :=
  concrete ← MaterialExplorer_ctor material;
  Some {| m_material := m_material concrete;
          m_layers := m_layers concrete;
          m_graph := m_graph concrete;
          m_selected_input := m_selected_input concrete |}.

(** [m_graph] is null or points to an object of the store. *)
Definition graph_in_store (s : State) : Prop :=
  forall l, m_graph (this s) = Some l -> is_Some (heap s !! l).

(** A graph is held exactly when an input is selected, and the selected
    input is one of the listed names. *)
Definition selection_consistent (s : State) : Prop :=
  (m_graph (this s) = None <-> m_selected_input (this s) = "")
  /\ (m_selected_input (this s) = ""
      \/ m_selected_input (this s) ∈ listed_inputs (m_layers (this s))).

End Create.

(** No entry of the layers list reports a click. *)
Definition no_click (ui : ImGuiFrame) : Prop :=
  forall k, Selectable ui k = false.

Section Runs.
Context `{R : Renderer}.

(** The [UpdateNodePos] calls of a run of frames, in order. *)
Fixpoint run_update_calls (win_size : ImVec2.t) (uis : list ImGuiFrame)
    (s : State) : list (Z * int2.t) :=
  match uis with
  | [] => []
  | ui :: uis =>
      update_calls (snd (DrawExplorer win_size ui s))
      ++ run_update_calls win_size uis (fst (DrawExplorer win_size ui s))
  end.

End Runs.

(** More sample inputs: a frame in which nothing happens, a frame in which
    the entries 1 and 3 of the layers list both report a click, a frame in
    which node 0 is held while the mouse moves by (0.25, -0.5), and a node
    whose input count is -1. *)
Definition idle_frame : ImGuiFrame := {|
  Selectable := fun _ => false;
  Checkbox := false;
  IsItemActive := fun _ => false;
  IsMouseDragging := fun _ => false;
  MouseDelta := ImVec2.make (S754_zero false) (S754_zero false);
  IsWindowHovered := true;
  IsAnyItemActive := false
|}.

Definition double_click_frame : ImGuiFrame := {|
  Selectable := fun i => Nat.eqb i 1 || Nat.eqb i 3;
  Checkbox := false;
  IsItemActive := fun _ => false;
  IsMouseDragging := fun _ => false;
  MouseDelta := ImVec2.make (S754_zero false) (S754_zero false);
  IsWindowHovered := true;
  IsAnyItemActive := false
|}.

Definition slow_drag_frame : ImGuiFrame := {|
  Selectable := fun _ => false;
  Checkbox := false;
  IsItemActive := fun i => Nat.eqb i 0;
  IsMouseDragging := fun button => button =? 0;
  MouseDelta := ImVec2.make (fdiv (float_of_int 1) (float_of_int 4))
                            (fdiv (float_of_int (-1)) (float_of_int 2));
  IsWindowHovered := true;
  IsAnyItemActive := true
|}.

(** A frame in which entry 7 of the layers list is clicked while node 0 is
    held and dragged by (3.75, -4.5). *)
Definition click_drag_frame : ImGuiFrame := {|
  Selectable := fun i => Nat.eqb i 7;
  Checkbox := true;
  IsItemActive := fun i => Nat.eqb i 0;
  IsMouseDragging := fun button => button =? 0;
  MouseDelta := ImVec2.make (fdiv (float_of_int 15) (float_of_int 4))
                            (fdiv (float_of_int (-9)) (float_of_int 2));
  IsWindowHovered := true;
  IsAnyItemActive := true
|}.

Definition uncounted_node : Node.t :=
  Node.make 2 "uncounted"
    (ImVec2.make (float_of_int 160) (float_of_int 100))
    (ImVec2.make (float_of_int 120) (float_of_int 40))
    (S754_zero false) sample_color (-1) (-1).

(** * Properties *)

Section LayerFacts.
Context `{R : Renderer}.

Lemma table_is_desc_of :
  GetUberLayersDesc =
  desc_of <$> [ kEmissionLayer; kCoatingLayer; kReflectionLayer; kDiffuseLayer;
                kRefractionLayer; kTransparencyLayer; kShadingNormalLayer;
                kSSSLayer ].
Proof. reflexivity. Qed.

Lemma desc_of_fst (k : Layers) : fst (desc_of k) = k.
Proof. destruct k; reflexivity. Qed.

Lemma desc_of_in_table (k : Layers) : desc_of k ∈ GetUberLayersDesc.
Proof.
  rewrite table_is_desc_of. apply (list_elem_of_fmap_2 desc_of).
  destruct k; set_solver.
Qed.

Lemma in_table_desc_of (d : LayerDesc) :
  d ∈ GetUberLayersDesc -> d = desc_of (fst d).
Proof.
  rewrite table_is_desc_of. intros Hd.
  apply list_elem_of_fmap in Hd as (k & -> & _).
  now rewrite desc_of_fst.
Qed.

(** The lookup never runs off the end of the table. *)
Lemma find_layer_found (k : Layers) :
  exists d, find_layer GetUberLayersDesc k = Some d
            /\ d ∈ GetUberLayersDesc
            /\ to_u32 (layer_value (fst d)) = to_u32 (layer_value k).
Proof.
  unfold find_layer.
  match goal with |- context [List.find ?p _] => set (p0 := p) end.
  destruct (List.find p0 GetUberLayersDesc) as [d|] eqn:E.
  - exists d. apply find_some in E as [Hin Hp].
    split; [reflexivity|]. split; [now apply list_elem_of_In|].
    subst p0. simpl in Hp.
    destruct (Z.eqb_spec (to_u32 (layer_value (fst d)))
                         (to_u32 (layer_value k))); congruence.
  - exfalso.
    pose proof (find_none _ _ E (desc_of k)) as Hn.
    assert (Hin : In (desc_of k) GetUberLayersDesc)
      by (apply list_elem_of_In, desc_of_in_table).
    specialize (Hn Hin). subst p0. simpl in Hn.
    rewrite desc_of_fst, Z.eqb_refl in Hn. discriminate.
Qed.

(** With distinct enumerator values the lookup returns the layer's own
    descriptor. *)
Lemma find_layer_own (k : Layers) :
  (forall a b, to_u32 (layer_value a) = to_u32 (layer_value b) -> a = b) ->
  find_layer GetUberLayersDesc k = Some (desc_of k).
Proof.
  intros Hinj.
  destruct (find_layer_found k) as (d & Hf & Hin & Hv).
  rewrite Hf. f_equal.
  rewrite (in_table_desc_of d Hin). f_equal. now apply Hinj.
Qed.

End LayerFacts.

Section Constructor.
Context `{R : Renderer}.

Lemma collect_found (layers : Z) (k : Layers) (acc : list LayerDesc) :
  exists l, collect GetUberLayersDesc layers k acc = Some l.
Proof.
  unfold collect. destruct (layer_enabled layers k); [|eauto].
  destruct (find_layer_found k) as (d & -> & _). simpl. eauto.
Qed.

Lemma collect_own (layers : Z) (k : Layers) (acc : list LayerDesc) :
  (forall a b, to_u32 (layer_value a) = to_u32 (layer_value b) -> a = b) ->
  collect GetUberLayersDesc layers k acc =
  Some (acc ++ (if layer_enabled layers k then [desc_of k] else [])).
Proof.
  intros Hinj. unfold collect. rewrite (find_layer_own k Hinj).
  destruct (layer_enabled layers k); simpl; [reflexivity|].
  now rewrite app_nil_r.
Qed.

Lemma ctor_enabled_descs (material : Material) :
  (forall a b, to_u32 (layer_value a) = to_u32 (layer_value b) -> a = b) ->
  MaterialExplorer_ctor material =
  Some {| m_material := material;
          m_layers := enabled_descs (GetLayers material);
          m_graph := None;
          m_selected_input := "" |}.
Proof.
  intros Hinj. unfold MaterialExplorer_ctor.
  repeat (rewrite (fun k acc => collect_own (GetLayers material) k acc Hinj);
          simpl).
  do 2 f_equal. unfold enabled_descs, all_layers. simpl.
  rewrite <- !app_assoc, app_nil_r. reflexivity.
Qed.

Lemma enabled_sublist (layers : Z) (ks : list Layers) :
  mjoin ((fun k => if layer_enabled layers k then [desc_of k] else []) <$> ks)
    `sublist_of` desc_of <$> ks.
Proof.
  induction ks as [|k ks IH]; simpl; [constructor|].
  destruct (layer_enabled layers k); simpl; now constructor.
Qed.

Lemma enabled_descs_NoDup (layers : Z) : NoDup (enabled_descs layers).
Proof.
  eapply sublist_NoDup; [|apply enabled_sublist].
  apply (bool_decide_unpack (NoDup (desc_of <$> all_layers))).
  vm_compute. exact I.
Qed.

Lemma elem_of_enabled_descs (layers : Z) (d : LayerDesc) :
  d ∈ enabled_descs layers <->
  d ∈ GetUberLayersDesc /\ layer_enabled layers (fst d) = true.
Proof.
  unfold enabled_descs. rewrite list_elem_of_join. split.
  - intros (l & Hd & Hl). apply list_elem_of_fmap in Hl as (k & -> & _).
    destruct (layer_enabled layers k) eqn:E; [|inversion Hd].
    apply list_elem_of_singleton in Hd as ->.
    rewrite desc_of_fst. split; [apply desc_of_in_table | exact E].
  - intros [Hin Hen]. exists [d]. split; [apply list_elem_of_singleton; reflexivity|].
    apply list_elem_of_fmap. exists (fst d).
    rewrite Hen, <- (in_table_desc_of d Hin). split; [reflexivity|].
    apply list_elem_of_In. destruct (fst d); simpl; auto 10.
Qed.

(** C4.  The table has one entry for each of the eight layers (emission,
    diffuse, reflection, refraction, coating, subsurface scattering,
    transparency, shading normal), no layer twice and nothing else, and
    every entry names at least one input. *)
Theorem GetUberLayersDesc_covers_layers :
  length GetUberLayersDesc = 8%nat
  /\ (forall k : Layers,
        length (filter (fun d : LayerDesc => fst d = k) GetUberLayersDesc)
        = 1%nat)
  /\ Forall (fun d : LayerDesc => snd d <> []) GetUberLayersDesc.
Proof.
  split; [reflexivity|]. split.
  - intros k. destruct k; reflexivity.
  - unfold GetUberLayersDesc. repeat constructor; discriminate.
Qed.

(** C7.  For each of the eight flags the constructor tests, [find_layer]
    finds an entry of the table before it dereferences; so for every
    material the constructor completes, with no dereference of [end()]. *)
Theorem ctor_never_dereferences_end :
  (forall k : Layers,
     exists d, find_layer GetUberLayersDesc k = Some d
               /\ d ∈ GetUberLayersDesc
               /\ to_u32 (layer_value (fst d)) = to_u32 (layer_value k))
  /\ (forall material : Material,
        exists e, MaterialExplorer_ctor material = Some e).
Proof.
  split.
  - intros k. apply find_layer_found.
  - intros material. unfold MaterialExplorer_ctor.
    repeat match goal with
    | |- context [collect ?ds ?ls ?k ?acc] =>
        let l := fresh "l" in
        destruct (collect_found ls k acc) as [l ->]; simpl
    end.
    eauto.
Qed.

(** C1.  With the layer enumerators standing for distinct values, the
    constructor completes for every material and [m_layers] holds a
    descriptor if and only if it is an entry of the table whose flag is set
    in the material's layer mask, each one once. *)
Theorem ctor_collects_enabled_layers (material : Material) :
  (forall a b, to_u32 (layer_value a) = to_u32 (layer_value b) -> a = b) ->
  exists e,
    MaterialExplorer_ctor material = Some e
    /\ m_material e = material
    /\ (forall d : LayerDesc,
          d ∈ m_layers e <->
          d ∈ GetUberLayersDesc
          /\ Z.land (GetLayers material) (to_u32 (layer_value (fst d))) <> 0)
    /\ NoDup (m_layers e).
Proof.
  intros Hinj. eexists. split; [apply (ctor_enabled_descs material Hinj)|].
  simpl. split; [reflexivity|]. split; [|apply enabled_descs_NoDup].
  intros d. rewrite elem_of_enabled_descs. unfold layer_enabled.
  destruct (Z.eqb_spec (Z.land (GetLayers material)
                          (to_u32 (layer_value (fst d)))) 0);
    simpl; intuition congruence.
Qed.

End Constructor.

(** ** The layers list *)

Lemma wrap_int_succ (a : Z) : wrap_int (wrap_int a + 1) = wrap_int (a + 1).
Proof.
  unfold wrap_int. f_equal.
  replace ((a + 2 ^ 31) mod 2 ^ 32 - 2 ^ 31 + 1 + 2 ^ 31)
    with ((a + 2 ^ 31) mod 2 ^ 32 + 1) by ring.
  rewrite Zplus_mod_idemp_l. f_equal. ring.
Qed.

Lemma wrap_int_small (a : Z) : - 2 ^ 31 <= a < 2 ^ 31 -> wrap_int a = a.
Proof.
  intros Ha. unfold wrap_int. rewrite Z.mod_small; lia.
Qed.

Section LayersList.
Context `{R : Renderer}.
Variable ui : ImGuiFrame.

Lemma listed_input (names : list string) (v : ListVars) (input : string) :
  listed names v -> listed (names ++ [input]) (list_input ui v input).
Proof.
  intros (Hl & Hi & Hs). unfold listed, list_input. simpl.
  rewrite !fmap_app, Hl, Hi, length_app, Nat.add_1_r, seq_S, fmap_app.
  simpl. rewrite Hs. split; [reflexivity|]. split; [reflexivity|].
  rewrite wrap_int_succ. f_equal. lia.
Qed.

Lemma listed_inputs_fold (inputs names : list string) (v : ListVars) :
  listed names v ->
  listed (names ++ inputs) (fold_left (list_input ui) inputs v).
Proof.
  revert names v. induction inputs as [|input inputs IH]; intros names v Hv.
  - now rewrite app_nil_r.
  - simpl. replace (names ++ input :: inputs)
      with ((names ++ [input]) ++ inputs) by now rewrite <- app_assoc.
    apply IH. now apply listed_input.
Qed.

Lemma listed_layers_fold (layers : list LayerDesc) (names : list string)
    (v : ListVars) :
  listed names v ->
  listed (names ++ listed_inputs layers) (fold_left (list_layer ui) layers v).
Proof.
  revert names v. induction layers as [|layer layers IH]; intros names v Hv.
  - unfold listed_inputs. simpl. now rewrite app_nil_r.
  - simpl. unfold listed_inputs in *. simpl. rewrite app_assoc.
    apply IH. now apply listed_inputs_fold.
Qed.

Lemma layers_list_listed (layers : list LayerDesc) (sel : Z) :
  listed (listed_inputs layers) (layers_list ui layers sel).
Proof.
  apply (listed_layers_fold layers []). repeat split.
Qed.

(** Without a click no name is picked up. *)
Lemma list_input_quiet (inputs : list string) (v : ListVars) :
  (forall k, Selectable ui k = false) ->
  input_name (fold_left (list_input ui) inputs v) = input_name v
  /\ list_input_selected (fold_left (list_input ui) inputs v)
     = list_input_selected v.
Proof.
  intros Hq. revert v. induction inputs as [|input inputs IH]; intros v.
  - split; reflexivity.
  - simpl. destruct (IH (list_input ui v input)) as [-> ->].
    unfold list_input. simpl. rewrite Hq. split; reflexivity.
Qed.

Lemma list_layers_quiet (layers : list LayerDesc) (v : ListVars) :
  (forall k, Selectable ui k = false) ->
  input_name (fold_left (list_layer ui) layers v) = input_name v
  /\ list_input_selected (fold_left (list_layer ui) layers v)
     = list_input_selected v.
Proof.
  intros Hq. revert v. induction layers as [|layer layers IH]; intros v.
  - split; reflexivity.
  - simpl. destruct (IH (list_layer ui v layer)) as [-> ->].
    apply list_input_quiet, Hq.
Qed.

Lemma layers_list_quiet (layers : list LayerDesc) (sel : Z) :
  (forall k, Selectable ui k = false) ->
  input_name (layers_list ui layers sel) = ""
  /\ list_input_selected (layers_list ui layers sel) = sel.
Proof.
  intros Hq. unfold layers_list.
  now destruct (list_layers_quiet layers
                  {| selected_id := 0; input_name := "";
                     list_input_selected := sel; calls := [] |} Hq)
    as [-> ->].
Qed.

Lemma listed_length (names : list string) (v : ListVars) :
  listed names v -> length (calls v) = length names.
Proof. intros (Hl & _). now rewrite <- Hl, length_fmap. Qed.

Lemma picked_input (names : list string) (v : ListVars) (input : string) :
  listed names v -> picked ui names v ->
  picked ui (names ++ [input]) (list_input ui v input).
Proof.
  intros Hv Hp k name Hk Hc Hlater.
  rewrite length_app in Hlater. simpl in Hlater.
  unfold list_input. simpl. rewrite (listed_length names v Hv).
  destruct (Nat.lt_trichotomy k (length names)) as [Hlt|[->|Hgt]].
  - rewrite lookup_app_l in Hk by exact Hlt.
    rewrite (Hlater (length names)) by lia.
    apply (Hp k name Hk Hc). intros j Hj. apply Hlater. lia.
  - rewrite list_lookup_middle in Hk by reflexivity. injection Hk as ->.
    rewrite Hc. destruct Hv as (_ & _ & ->). split; reflexivity.
  - apply lookup_lt_Some in Hk. rewrite length_app in Hk. simpl in Hk. lia.
Qed.

Lemma picked_inputs_fold (inputs names : list string) (v : ListVars) :
  listed names v -> picked ui names v ->
  picked ui (names ++ inputs) (fold_left (list_input ui) inputs v).
Proof.
  revert names v. induction inputs as [|input inputs IH]; intros names v Hv Hp.
  - now rewrite app_nil_r.
  - simpl. replace (names ++ input :: inputs)
      with ((names ++ [input]) ++ inputs) by now rewrite <- app_assoc.
    apply IH; [now apply listed_input | now apply picked_input].
Qed.

Lemma picked_layers_fold (layers : list LayerDesc) (names : list string)
    (v : ListVars) :
  listed names v -> picked ui names v ->
  picked ui (names ++ listed_inputs layers)
         (fold_left (list_layer ui) layers v).
Proof.
  revert names v. induction layers as [|layer layers IH]; intros names v Hv Hp.
  - unfold listed_inputs. simpl. now rewrite app_nil_r.
  - simpl. unfold listed_inputs in *. simpl. rewrite app_assoc.
    apply IH; [now apply listed_inputs_fold | now apply picked_inputs_fold].
Qed.

(** The clicked input is the last listed entry that reports a click, and
    [input_selected] becomes its index. *)
Lemma layers_list_picked (layers : list LayerDesc) (sel : Z) :
  picked ui (listed_inputs layers) (layers_list ui layers sel).
Proof.
  apply (picked_layers_fold layers []); [repeat split|].
  intros k name Hk. discriminate.
Qed.

End LayersList.

(** ** The node loop *)

Section NodeLoop.
Context `{R : Renderer}.
Variable ui : ImGuiFrame.

Lemma apply_updates_app (l1 l2 : list (Z * int2.t)) (g : GraphScheme) :
  apply_updates (l1 ++ l2) g = apply_updates l2 (apply_updates l1 g).
Proof. unfold apply_updates. apply fold_left_app. Qed.

Lemma drag_fold (nodes : list SchemeNode.t) (k : nat) (g : GraphScheme)
    (log : list (Z * int2.t)) :
  fold_left (drag_node ui) nodes (k, g, log)
  = ((k + length nodes)%nat,
     apply_updates (drag_calls ui k nodes) g,
     log ++ drag_calls ui k nodes).
Proof.
  revert k g log. induction nodes as [|node nodes IH]; intros k g log.
  - simpl. now rewrite Nat.add_0_r, app_nil_r.
  - simpl. replace (k + S (length nodes))%nat with (S k + length nodes)%nat
      by lia.
    destruct (IsItemActive ui k && IsMouseDragging ui 0).
    + now rewrite IH, apply_updates_app, <- app_assoc.
    + now rewrite IH.
Qed.

Lemma display_nodes_at (l : loc) (h : gmap loc GraphScheme) (g : GraphScheme) :
  h !! l = Some g ->
  display_nodes ui (Some l) h
  = (<[l := apply_updates (drag_calls ui 0 (GetNodes g)) g]> h,
     drag_calls ui 0 (GetNodes g)).
Proof.
  intros Hl. unfold display_nodes. rewrite Hl, drag_fold. reflexivity.
Qed.

Lemma display_nodes_frame (p : option loc) (h : gmap loc GraphScheme) (l : loc) :
  p <> Some l -> fst (display_nodes ui p h) !! l = h !! l.
Proof.
  intros Hp. unfold display_nodes.
  destruct p as [l0|]; [|reflexivity].
  destruct (h !! l0) as [g|] eqn:E; [|reflexivity].
  rewrite drag_fold. simpl. apply lookup_insert_ne. congruence.
Qed.

Lemma display_nodes_dom (p : option loc) (h : gmap loc GraphScheme) :
  dom (fst (display_nodes ui p h)) = dom h.
Proof.
  unfold display_nodes.
  destruct p as [l0|]; [|reflexivity].
  destruct (h !! l0) as [g|] eqn:E; [|reflexivity].
  rewrite drag_fold. simpl. apply dom_insert_lookup_L. eauto.
Qed.

(** A node that is active while the left button drags gets its call. *)
Lemma drag_calls_active (nodes : list SchemeNode.t) (k0 j : nat)
    (node : SchemeNode.t) :
  nodes !! j = Some node ->
  IsItemActive ui (k0 + j) = true -> IsMouseDragging ui 0 = true ->
  (SchemeNode.id node, dragged_pos ui node) ∈ drag_calls ui k0 nodes.
Proof.
  revert k0 j. induction nodes as [|n nodes IH]; intros k0 j Hj Ha Hd.
  - discriminate.
  - simpl. apply elem_of_app. destruct j as [|j].
    + left. rewrite Nat.add_0_r in Ha. rewrite Ha, Hd. simpl.
      injection Hj as ->. apply list_elem_of_singleton. reflexivity.
    + right. apply (IH (S k0) j); [exact Hj | | exact Hd].
      now replace (S k0 + j)%nat with (k0 + S j)%nat by lia.
Qed.

(** Every call comes from such a node. *)
Lemma drag_calls_only (nodes : list SchemeNode.t) (k0 : nat) (c : Z * int2.t) :
  c ∈ drag_calls ui k0 nodes ->
  exists j node,
    nodes !! j = Some node
    /\ IsItemActive ui (k0 + j) = true /\ IsMouseDragging ui 0 = true
    /\ c = (SchemeNode.id node, dragged_pos ui node).
Proof.
  revert k0. induction nodes as [|n nodes IH]; intros k0 Hc.
  - inversion Hc.
  - simpl in Hc. apply elem_of_app in Hc as [Hc|Hc].
    + destruct (IsItemActive ui k0) eqn:Ha; [|inversion Hc].
      destruct (IsMouseDragging ui 0) eqn:Hd; [|inversion Hc].
      simpl in Hc. apply list_elem_of_singleton in Hc as ->.
      exists 0%nat, n. rewrite Nat.add_0_r. auto.
    + destruct (IH (S k0) Hc) as (j & node & Hj & Ha & Hd & ->).
      exists (S j), node. split; [exact Hj|].
      replace (k0 + S j)%nat with (S k0 + j)%nat by lia. auto.
Qed.

Lemma drag_calls_none (nodes : list SchemeNode.t) (k0 : nat) :
  (forall j, (j < length nodes)%nat ->
             IsItemActive ui (k0 + j) && IsMouseDragging ui 0 = false) ->
  drag_calls ui k0 nodes = [].
Proof.
  revert k0. induction nodes as [|n nodes IH]; intros k0 Hq; [reflexivity|].
  simpl. pose proof (Hq 0%nat ltac:(simpl; lia)) as H0.
  rewrite Nat.add_0_r in H0. rewrite H0. simpl. apply IH.
  intros j Hj. replace (S k0 + j)%nat with (k0 + S j)%nat by lia.
  apply Hq. simpl. lia.
Qed.

(** With a single active node the loop makes a single call. *)
Lemma drag_calls_single (nodes : list SchemeNode.t) (k0 j : nat)
    (node : SchemeNode.t) :
  nodes !! j = Some node ->
  IsItemActive ui (k0 + j) = true -> IsMouseDragging ui 0 = true ->
  (forall i, i <> (k0 + j)%nat -> IsItemActive ui i = false) ->
  drag_calls ui k0 nodes = [(SchemeNode.id node, dragged_pos ui node)].
Proof.
  revert k0 j. induction nodes as [|n nodes IH]; intros k0 j Hj Ha Hd Ho.
  - discriminate.
  - simpl. destruct j as [|j].
    + rewrite Nat.add_0_r in Ha, Ho. rewrite Ha, Hd. simpl.
      injection Hj as ->. f_equal. apply drag_calls_none.
      intros i _. rewrite Ho; [reflexivity | lia].
    + rewrite (Ho k0) by lia. simpl.
      apply (IH (S k0) j); [exact Hj | | exact Hd |].
      * now replace (S k0 + j)%nat with (k0 + S j)%nat by lia.
      * intros i Hi. apply Ho. lia.
Qed.

End NodeLoop.

(** ** One frame *)

Section Frame.
Context `{R : Renderer}.
Variable win_size : ImVec2.t.

Lemma DrawExplorer_parts (ui : ImGuiFrame) (s : State) :
  let v := layers_list ui (m_layers (this s)) (input_selected s) in
  let sel :=
    select_input (clicked_input ui s) (this s) (co_owned s) (heap s) in
  let dn := display_nodes ui (m_graph (fst sel)) (snd sel) in
  this (fst (DrawExplorer win_size ui s)) = fst sel
  /\ heap (fst (DrawExplorer win_size ui s)) = fst dn
  /\ input_selected (fst (DrawExplorer win_size ui s)) = list_input_selected v
  /\ selectable_calls (snd (DrawExplorer win_size ui s)) = calls v
  /\ update_calls (snd (DrawExplorer win_size ui s)) = snd dn.
Proof.
  unfold DrawExplorer, clicked_input.
  destruct (select_input _ (this s) (co_owned s) (heap s)) as [e h]. simpl.
  destruct (display_nodes ui (m_graph e) h) as [h' log]. simpl.
  repeat split.
Qed.

Lemma DrawExplorer_co_owned (ui : ImGuiFrame) (s : State) :
  co_owned (fst (DrawExplorer win_size ui s)) = co_owned s.
Proof.
  unfold DrawExplorer.
  destruct (select_input _ (this s) (co_owned s) (heap s)) as [e h].
  destruct (display_nodes ui (m_graph e) h) as [h' log]. reflexivity.
Qed.

(** The address of a new object is unused and is not the one held. *)
Lemma fresh_loc_unused (h : gmap loc GraphScheme) (p : option loc) :
  h !! fresh (dom h ∪ held p) = None.
Proof.
  apply not_elem_of_dom. intros Hin.
  apply (is_fresh (dom h ∪ held p)), elem_of_union. now left.
Qed.

Lemma fresh_loc_not_held (h : gmap loc GraphScheme) (p : option loc) :
  p <> Some (fresh (dom h ∪ held p)).
Proof.
  intros Hp. apply (is_fresh (dom h ∪ held p)), elem_of_union. right.
  rewrite Hp at 2. simpl. now apply elem_of_singleton.
Qed.

(** Releasing touches no object but the one held, and only removes. *)
Lemma release_lookup_ne (p : option loc) (co : gset loc)
    (h : gmap loc GraphScheme) (l : loc) :
  p <> Some l -> release p co h !! l = h !! l.
Proof.
  intros Hp. unfold release. destruct p as [l0|]; [|reflexivity].
  destruct (decide (l0 ∈ co)); [reflexivity|].
  apply lookup_delete_ne. congruence.
Qed.

Lemma release_lookup_Some (p : option loc) (co : gset loc)
    (h : gmap loc GraphScheme) (l : loc) (g : GraphScheme) :
  release p co h !! l = Some g -> h !! l = Some g.
Proof.
  unfold release. destruct p as [l0|]; [|tauto].
  destruct (decide (l0 ∈ co)); [tauto|].
  intros Hl. apply lookup_delete_Some in Hl. tauto.
Qed.

(** A sole owner's object is gone after the release, a shared one stays. *)
Lemma release_sole (l : loc) (co : gset loc) (h : gmap loc GraphScheme) :
  l ∉ co -> release (Some l) co h !! l = None.
Proof.
  intros Hl. unfold release. destruct (decide (l ∈ co)); [contradiction|].
  apply lookup_delete_eq.
Qed.

Lemma release_shared (l : loc) (co : gset loc) (h : gmap loc GraphScheme) :
  l ∈ co -> release (Some l) co h = h.
Proof.
  intros Hl. unfold release. destruct (decide (l ∈ co)); [reflexivity|].
  contradiction.
Qed.

Lemma select_input_change (name : string) (e : MaterialExplorer)
    (co : gset loc) (h : gmap loc GraphScheme) :
  name <> "" -> m_selected_input e <> name ->
  select_input name e co h
  = ({| m_material := m_material e;
        m_layers := m_layers e;
        m_graph := Some (fresh (dom h ∪ held (m_graph e)));
        m_selected_input := name |},
     release (m_graph e) co
       (<[fresh (dom h ∪ held (m_graph e)) :=
            GraphScheme_Create
              (UberTree_Create
                 (GetInputValue_input_map_value (m_material e) name))
              (int2.make (left_side_width + 10) 100)]> h)).
Proof.
  intros Hn Hs. unfold select_input.
  destruct (String.eqb_spec name ""); [contradiction|].
  destruct (String.eqb_spec (m_selected_input e) name); [contradiction|].
  reflexivity.
Qed.

Lemma select_input_same (name : string) (e : MaterialExplorer)
    (co : gset loc) (h : gmap loc GraphScheme) :
  name = "" \/ name = m_selected_input e ->
  select_input name e co h = (e, h).
Proof.
  intros Hn. unfold select_input.
  destruct (String.eqb_spec name ""); [reflexivity|].
  destruct (String.eqb_spec (m_selected_input e) name); [reflexivity|].
  destruct Hn; congruence.
Qed.

Lemma select_input_fields (name : string) (e : MaterialExplorer)
    (co : gset loc) (h : gmap loc GraphScheme) :
  m_material (fst (select_input name e co h)) = m_material e
  /\ m_layers (fst (select_input name e co h)) = m_layers e.
Proof.
  unfold select_input.
  destruct (negb _ && negb _); split; reflexivity.
Qed.

(** The new object, as the store holds it once the old one is released. *)
Lemma select_input_created (name : string) (e : MaterialExplorer)
    (co : gset loc) (h : gmap loc GraphScheme) :
  name <> "" -> m_selected_input e <> name ->
  snd (select_input name e co h) !! fresh (dom h ∪ held (m_graph e))
  = Some (GraphScheme_Create
            (UberTree_Create
               (GetInputValue_input_map_value (m_material e) name))
            (int2.make (left_side_width + 10) 100)).
Proof.
  intros Hn Hs. rewrite (select_input_change name e co h Hn Hs). simpl.
  rewrite release_lookup_ne by apply fresh_loc_not_held.
  apply lookup_insert_eq.
Qed.

(** Lines 137-143 leave alone every object but the one held before and the
    one held after. *)
Lemma select_input_frame (name : string) (e : MaterialExplorer)
    (co : gset loc) (h : gmap loc GraphScheme) (l : loc) :
  m_graph e <> Some l ->
  m_graph (fst (select_input name e co h)) <> Some l ->
  snd (select_input name e co h) !! l = h !! l.
Proof.
  unfold select_input.
  destruct (negb _ && negb _); simpl; [|reflexivity].
  intros Ho Hl. rewrite release_lookup_ne by exact Ho.
  apply lookup_insert_ne. congruence.
Qed.

(** C6.  The layers list makes one [Selectable] call per input name of the
    layers in [m_layers], layer after layer and, within a layer, in the
    order of its descriptor; the [k]-th call is made at [selected_id = k],
    so the listed inputs get the indices 0, 1, 2, ...  (As [selected_id] is
    an [int], the list is taken to have fewer than [2^31] entries.) *)
Theorem layers_list_enumerates_inputs (ui : ImGuiFrame) (s : State) :
  Z.of_nat (length (listed_inputs (m_layers (this s)))) < 2 ^ 31 ->
  let log := selectable_calls (snd (DrawExplorer win_size ui s)) in
  label <$> log = listed_inputs (m_layers (this s))
  /\ index <$> log
     = Z.of_nat <$> seq 0 (length (listed_inputs (m_layers (this s)))).
Proof.
  intros Hlen log.
  destruct (DrawExplorer_parts ui s) as (_ & _ & _ & Hc & _).
  subst log. rewrite Hc.
  destruct (layers_list_listed ui (m_layers (this s)) (input_selected s))
    as (Hl & Hi & _).
  split; [exact Hl|]. rewrite Hi.
  apply list_fmap_ext. intros i k Hk.
  apply lookup_seq in Hk as [-> Hk]. simpl.
  apply wrap_int_small. lia.
Qed.

(** C2.  When the frame's clicked input has a non-empty name different from
    [m_selected_input], [m_graph] is set to a new graph object made by
    [GraphScheme::Create] over [UberTree::Create] of the material's input
    map value for that name, that object is the one the frame displays, and
    [m_selected_input] becomes the name.  At the end of the frame the object
    holds the created graph with the node moves of this frame applied; with
    no left-button drag it is the created graph itself. *)
Theorem selection_change_rebuilds_graph (ui : ImGuiFrame) (s : State) :
  clicked_input ui s <> "" ->
  m_selected_input (this s) <> clicked_input ui s ->
  let name := clicked_input ui s in
  let created :=
    GraphScheme_Create
      (UberTree_Create
         (GetInputValue_input_map_value (m_material (this s)) name))
      (int2.make (left_side_width + 10) 100) in
  let s' := fst (DrawExplorer win_size ui s) in
  let log := update_calls (snd (DrawExplorer win_size ui s)) in
  m_selected_input (this s') = name
  /\ exists l,
       m_graph (this s') = Some l
       /\ heap s !! l = None
       /\ displayed_graph ui s = Some (l, created)
       /\ heap s' !! l = Some (apply_updates log created)
       /\ (IsMouseDragging ui 0 = false -> heap s' !! l = Some created).
Proof.
  intros Hne Hsel name created s' log.
  destruct (DrawExplorer_parts ui s) as (Ht & Hh & _ & _ & Hu).
  subst s' log. rewrite Ht, Hh, Hu. clear Ht Hh Hu.
  unfold displayed_graph.
  pose proof (select_input_created _ _ (co_owned s) (heap s) Hne Hsel)
    as Hnew.
  rewrite (select_input_change _ _ (co_owned s) (heap s) Hne Hsel) in *.
  cbn [fst snd m_graph m_selected_input mbind option_bind] in *.
  fold name in Hnew |- *. fold created in Hnew |- *.
  split; [reflexivity|].
  exists (fresh (dom (heap s) ∪ held (m_graph (this s)))).
  split; [reflexivity|]. split; [apply fresh_loc_unused|].
  rewrite Hnew. cbn [mbind option_bind].
  rewrite (display_nodes_at ui _ _ created Hnew).
  cbn [fst snd]. rewrite !lookup_insert_eq.
  split; [reflexivity|]. split; [reflexivity|].
  intros Hd. rewrite drag_calls_none; [reflexivity|].
  intros j _. rewrite Hd. apply andb_false_r.
Qed.

(** C3.  In a frame without a selection change (no [Selectable] reported a
    click, or the clicked input is the one already selected) [m_graph] and
    [m_selected_input] keep their values, and no graph object is created. *)
Theorem no_selection_change_keeps_graph (ui : ImGuiFrame) (s : State) :
  (forall k, Selectable ui k = false)
  \/ clicked_input ui s = m_selected_input (this s) ->
  let s' := fst (DrawExplorer win_size ui s) in
  m_graph (this s') = m_graph (this s)
  /\ m_selected_input (this s') = m_selected_input (this s)
  /\ dom (heap s') = dom (heap s).
Proof.
  intros Hq s'.
  assert (Hsame : clicked_input ui s = ""
                  \/ clicked_input ui s = m_selected_input (this s)).
  { destruct Hq as [Hq|Hq]; [left|now right].
    apply (layers_list_quiet ui _ _ Hq). }
  destruct (DrawExplorer_parts ui s) as (Ht & Hh & _).
  subst s'. rewrite Ht, Hh.
  rewrite (select_input_same _ _ (co_owned s) (heap s) Hsame). simpl.
  split; [reflexivity|]. split; [reflexivity|].
  apply display_nodes_dom.
Qed.

(** C5.  When a node of the displayed graph is active while the left mouse
    button drags, the frame calls [UpdateNodePos] on the graph object
    [m_graph] points to, with the node's id and the node's position plus the
    mouse delta truncated to [int]; the object ends the frame with the
    frame's calls applied, which is that one call when no other node is
    active. *)
Theorem drag_relays_node_position (ui : ImGuiFrame) (s : State)
    (l : loc) (g : GraphScheme) (k : nat) (node : SchemeNode.t) :
  displayed_graph ui s = Some (l, g) ->
  GetNodes g !! k = Some node ->
  IsItemActive ui k = true ->
  IsMouseDragging ui 0 = true ->
  let new_pos :=
    int2.make
      (int_add (int2.x (SchemeNode.pos node))
               (int_of_float (ImVec2.x (MouseDelta ui))))
      (int_add (int2.y (SchemeNode.pos node))
               (int_of_float (ImVec2.y (MouseDelta ui)))) in
  let s' := fst (DrawExplorer win_size ui s) in
  let log := update_calls (snd (DrawExplorer win_size ui s)) in
  (SchemeNode.id node, new_pos) ∈ log
  /\ m_graph (this s') = Some l
  /\ heap s' !! l = Some (apply_updates log g)
  /\ ((forall i, i <> k -> IsItemActive ui i = false) ->
      log = [(SchemeNode.id node, new_pos)]
      /\ heap s' !! l = Some (UpdateNodePos (SchemeNode.id node) new_pos g)).
Proof.
  intros Hg Hk Ha Hd new_pos s' log.
  destruct (DrawExplorer_parts ui s) as (Ht & Hh & _ & _ & Hu).
  subst s' log. rewrite Ht, Hh, Hu. clear Ht Hh Hu.
  unfold displayed_graph in Hg.
  destruct (select_input (clicked_input ui s) (this s) (co_owned s) (heap s))
    as [e h].
  simpl in *. destruct (m_graph e) as [l0|]; [|discriminate]. simpl in Hg.
  destruct (h !! l0) as [g0|] eqn:Hl; [|discriminate].
  injection Hg as -> ->.
  rewrite (display_nodes_at ui l h g Hl). simpl. rewrite lookup_insert_eq.
  split; [apply (drag_calls_active ui _ 0%nat k node Hk Ha Hd)|].
  split; [reflexivity|]. split; [reflexivity|].
  intros Ho.
  rewrite (drag_calls_single ui _ 0%nat k node Hk Ha Hd Ho).
  split; reflexivity.
Qed.

(** C9.  A frame leaves [m_material] and [m_layers] as they are, and so
    does any run of frames: of the explorer's fields, only [m_graph] and
    [m_selected_input] can differ after [DrawExplorer]. *)
Theorem DrawExplorer_keeps_material_and_layers :
  (forall (ui : ImGuiFrame) (s : State),
     let s' := fst (DrawExplorer win_size ui s) in
     m_material (this s') = m_material (this s)
     /\ m_layers (this s') = m_layers (this s))
  /\ (forall (uis : list ImGuiFrame) (s : State),
        m_material (this (frames win_size uis s)) = m_material (this s)
        /\ m_layers (this (frames win_size uis s)) = m_layers (this s)).
Proof.
  assert (Hone : forall (ui : ImGuiFrame) (s : State),
     let s' := fst (DrawExplorer win_size ui s) in
     m_material (this s') = m_material (this s)
     /\ m_layers (this s') = m_layers (this s)).
  { intros ui s s'.
    destruct (DrawExplorer_parts ui s) as (Ht & _).
    subst s'. rewrite Ht. apply select_input_fields. }
  split; [exact Hone|].
  intros uis. unfold frames.
  induction uis as [|ui uis IH]; intros s; [split; reflexivity|].
  simpl. destruct (IH (fst (DrawExplorer win_size ui s))) as [-> ->].
  apply Hone.
Qed.

End Frame.

(** ** Binary32 rounding

    What the slot formula needs of the rounding of the specification
    floats: a rounded number stays in its binade or moves to the next, and
    a number that fits the format is rounded to itself. *)

Lemma digits_bounds (p : positive) :
  2 ^ (digits p - 1) <= Z.pos p < 2 ^ digits p.
Proof.
  unfold digits.
  induction p as [p IH|p IH|]; simpl digits2_pos.
  - rewrite Pos2Z.inj_succ.
    replace (Z.succ (Z.pos (digits2_pos p)) - 1)
      with (Z.succ (Z.pos (digits2_pos p) - 1)) by lia.
    rewrite !Z.pow_succ_r by lia. lia.
  - rewrite Pos2Z.inj_succ.
    replace (Z.succ (Z.pos (digits2_pos p)) - 1)
      with (Z.succ (Z.pos (digits2_pos p) - 1)) by lia.
    rewrite !Z.pow_succ_r by lia. lia.
  - simpl. lia.
Qed.

Lemma digits_pos (p : positive) : 0 < digits p.
Proof. unfold digits. lia. Qed.

(** [2^j <= p] puts at least [j + 1] digits in [p]. *)
Lemma digits_above (p : positive) (j : Z) : 2 ^ j <= Z.pos p -> j < digits p.
Proof.
  intros Hj. pose proof (digits_bounds p) as [_ Hu].
  pose proof (digits_pos p).
  destruct (Z.lt_ge_cases j (digits p)) as [|Hge]; [assumption|].
  assert (2 ^ digits p <= 2 ^ j) by (apply Z.pow_le_mono_r; lia). lia.
Qed.

(** [p < 2^j] leaves at most [j] digits in [p]. *)
Lemma digits_below (p : positive) (j : Z) : Z.pos p < 2 ^ j -> digits p <= j.
Proof.
  intros Hj. pose proof (digits_bounds p) as [Hl _].
  destruct (Z.le_gt_cases (digits p) j) as [|Hgt]; [assumption|].
  assert (2 ^ j <= 2 ^ (digits p - 1)) by
    (destruct (Z.lt_ge_cases j 0);
     [rewrite (Z.pow_neg_r 2 j) by lia; apply Z.pow_nonneg; lia
     |apply Z.pow_le_mono_r; lia]).
  lia.
Qed.

Lemma iter_pos_count {A : Type} (f : A -> A) (P : Z -> A -> Prop) :
  (forall j x, 0 <= j -> P j x -> P (j + 1) (f x)) ->
  forall p j x, 0 <= j -> P j x -> P (j + Z.pos p) (SpecFloat.iter_pos f p x).
Proof.
  intros Hstep. induction p as [p IH|p IH|]; intros j x Hj HP; simpl.
  - replace (j + Z.pos p~1) with (((j + 1) + Z.pos p) + Z.pos p) by lia.
    apply IH; [lia|]. apply IH; [lia|]. now apply Hstep.
  - replace (j + Z.pos p~0) with ((j + Z.pos p) + Z.pos p) by lia.
    apply IH; [lia|]. now apply IH.
  - now apply Hstep.
Qed.

Lemma shr_1_m (mrs : shr_record) :
  0 <= shr_m mrs -> shr_m (shr_1 mrs) = shr_m mrs / 2.
Proof.
  destruct mrs as [m r s]. simpl. intros Hm.
  destruct m as [|p|p]; [reflexivity| |lia].
  destruct p as [p|p|]; simpl.
  - rewrite Pos2Z.inj_xI. apply Z.div_unique with 1; lia.
  - rewrite Pos2Z.inj_xO. apply Z.div_unique with 0; lia.
  - reflexivity.
Qed.

Lemma shr_m_iter (q : positive) (mrs : shr_record) :
  0 <= shr_m mrs ->
  shr_m (SpecFloat.iter_pos shr_1 q mrs) = shr_m mrs / 2 ^ Z.pos q.
Proof.
  intros Hm.
  assert (Hstep : forall j x, 0 <= j ->
            shr_m x = shr_m mrs / 2 ^ j ->
            shr_m (shr_1 x) = shr_m mrs / 2 ^ (j + 1)).
  { intros j x Hj Hx. rewrite shr_1_m.
    - rewrite Hx, Z.pow_add_r, Z.pow_1_r, Z.div_div by lia. reflexivity.
    - rewrite Hx. apply Z.div_pos; [lia|]. apply Z.pow_pos_nonneg; lia. }
  apply (iter_pos_count shr_1 (fun j x => shr_m x = shr_m mrs / 2 ^ j)
           Hstep q 0 mrs); [lia|].
  now rewrite Z.pow_0_r, Z.div_1_r.
Qed.

Lemma shift_left_value (m d : positive) :
  Z.pos (Pos.iter xO m d) = Z.pos m * 2 ^ Z.pos d.
Proof.
  induction d as [|d IH] using Pos.peano_ind.
  - simpl. lia.
  - rewrite Pos.iter_succ, Pos2Z.inj_xO, IH, Pos2Z.inj_succ, Z.pow_succ_r by lia.
    ring.
Qed.

(** Dropping [q] low bits of a number of more than [q] digits. *)
Lemma digits_shift_right (p : positive) (q : Z) :
  0 < q < digits p ->
  exists p', Z.pos p / 2 ^ q = Z.pos p' /\ digits p' = digits p - q.
Proof.
  intros Hq. pose proof (digits_bounds p) as [Hl Hu].
  assert (H2q : 0 < 2 ^ q) by (apply Z.pow_pos_nonneg; lia).
  assert (Hlow : 2 ^ (digits p - q - 1) <= Z.pos p / 2 ^ q).
  { apply Z.div_le_lower_bound; [exact H2q|].
    rewrite <- Z.pow_add_r by lia.
    now replace (q + (digits p - q - 1)) with (digits p - 1) by lia. }
  assert (Hup : Z.pos p / 2 ^ q < 2 ^ (digits p - q)).
  { apply Z.div_lt_upper_bound; [exact H2q|].
    rewrite <- Z.pow_add_r by lia.
    now replace (q + (digits p - q)) with (digits p) by lia. }
  assert (0 < 2 ^ (digits p - q - 1)) by (apply Z.pow_pos_nonneg; lia).
  destruct (Z.pos p / 2 ^ q) as [|p'|p'] eqn:E; [lia| |lia].
  exists p'. split; [reflexivity|].
  apply Z.le_antisymm.
  - apply digits_below. exact Hup.
  - pose proof (digits_above p' _ Hlow). lia.
Qed.

Lemma digits_shift_left (m d : positive) :
  digits (Pos.iter xO m d) = digits m + Z.pos d.
Proof.
  pose proof (digits_bounds m) as [Hl Hu].
  pose proof (shift_left_value m d) as Hv.
  assert (H2 : 0 < 2 ^ Z.pos d) by (apply Z.pow_pos_nonneg; lia).
  pose proof (digits_pos m).
  apply Z.le_antisymm.
  - apply digits_below. rewrite Hv, Z.pow_add_r by lia. nia.
  - assert (2 ^ (digits m + Z.pos d - 1) <= Z.pos (Pos.iter xO m d)).
    { rewrite Hv. replace (digits m + Z.pos d - 1) with ((digits m - 1) + Z.pos d) by lia.
      rewrite Z.pow_add_r by lia. nia. }
    pose proof (digits_above _ _ H0). lia.
Qed.

(** Rounding to nearest even moves a mantissa up by at most one. *)
Lemma round_nearest_even_range (m : Z) (l : location) :
  m <= round_nearest_even m l <= m + 1.
Proof.
  destruct l as [|[| |]]; simpl; try lia.
  destruct (Z.even m); lia.
Qed.

Lemma digits_succ (p p' : positive) :
  Z.pos p <= Z.pos p' <= Z.pos p + 1 -> digits p <= digits p' <= digits p + 1.
Proof.
  intros Hp. pose proof (digits_bounds p) as [Hl Hu].
  split.
  - assert (2 ^ (digits p - 1) <= Z.pos p') by lia.
    pose proof (digits_above _ _ H). lia.
  - apply digits_below. pose proof (digits_pos p).
    rewrite Z.pow_add_r, Z.pow_1_r by lia. lia.
Qed.

Lemma shr_record_of_loc_m (m : Z) (l : location) :
  shr_m (shr_record_of_loc m l) = m.
Proof. destruct l as [|[| |]]; reflexivity. Qed.

(** The first half of a rounding: the mantissa is cut to the exponent of its
    binade; a number above the underflow threshold keeps its magnitude. *)
Lemma shr_fexp_magnitude (p : positive) (e : Z) (l : location) :
  -149 < digits p + e ->
  exists mrs p',
    shr_fexp 24 128 (Z.pos p) e l
    = (mrs, Z.max e (fexp 24 128 (digits p + e)))
    /\ shr_m mrs = Z.pos p'
    /\ digits p' + Z.max e (fexp 24 128 (digits p + e)) = digits p + e.
Proof.
  intros HD. unfold shr_fexp, shr. simpl Zdigits2. fold (digits p).
  destruct (fexp 24 128 (digits p + e) - e) as [|q|q] eqn:Ek.
  - exists (shr_record_of_loc (Z.pos p) l), p.
    rewrite shr_record_of_loc_m, Z.max_l by lia. repeat split.
  - assert (Hq : 0 < Z.pos q < digits p)
      by (unfold fexp, emin in Ek; lia).
    destruct (digits_shift_right p (Z.pos q) Hq) as (p' & Hp' & Hd').
    exists (SpecFloat.iter_pos shr_1 q (shr_record_of_loc (Z.pos p) l)), p'.
    rewrite shr_m_iter, shr_record_of_loc_m
      by (rewrite shr_record_of_loc_m; lia).
    rewrite Z.max_r by lia.
    replace (e + Z.pos q) with (fexp 24 128 (digits p + e)) by lia.
    split; [reflexivity|]. split; [exact Hp'|]. lia.
  - exists (shr_record_of_loc (Z.pos p) l), p.
    rewrite shr_record_of_loc_m, Z.max_l by lia. repeat split.
Qed.

(** Rounding keeps a number within one binade: with [D = digits + exponent]
    between the underflow and overflow thresholds, the result is finite, of
    the same sign, and its [D] is the same or one more. *)
Lemma binary_round_aux_magnitude (s : bool) (p : positive) (e : Z)
    (l : location) :
  -149 < digits p + e < 128 -> e <= 104 ->
  exists m' e',
    binary_round_aux 24 128 s (Z.pos p) e l = S754_finite s m' e'
    /\ digits p + e <= digits m' + e' <= digits p + e + 1
    /\ e' <= 104.
Proof.
  intros HD He. unfold binary_round_aux.
  destruct (shr_fexp_magnitude p e l) as (mrs1 & p1 & -> & Hm1 & HD1); [lia|].
  rewrite Hm1.
  pose proof (round_nearest_even_range (Z.pos p1) (loc_of_shr_record mrs1))
    as Hr.
  destruct (round_nearest_even (Z.pos p1) (loc_of_shr_record mrs1))
    as [|p2|p2] eqn:E2; [lia| |lia].
  pose proof (digits_succ p1 p2 Hr) as Hd2.
  set (e1 := Z.max e (fexp 24 128 (digits p + e))) in *.
  destruct (shr_fexp_magnitude p2 e1 loc_Exact) as (mrs3 & p3 & -> & Hm3 & HD3);
    [lia|].
  rewrite Hm3.
  set (e3 := Z.max e1 (fexp 24 128 (digits p2 + e1))) in *.
  assert (He3 : e3 <= 104) by (subst e3 e1; unfold fexp, emin in *; lia).
  replace (e3 <=? 128 - 24) with true by (symmetry; apply Z.leb_le; lia).
  exists p3, e3. split; [reflexivity|]. split; lia.
Qed.

Lemma shl_align_magnitude (p : positive) (e e0 : Z) :
  exists p',
    shl_align p e e0 = (p', Z.min e e0)
    /\ digits p' + Z.min e e0 = digits p + e
    /\ Z.pos p' = Z.pos p * 2 ^ (e - Z.min e e0).
Proof.
  unfold shl_align. destruct (e0 - e) as [|d|d] eqn:Ed.
  - exists p. rewrite Z.min_l by lia. rewrite Z.sub_diag. simpl.
    repeat split; lia.
  - exists p. rewrite Z.min_l by lia. rewrite Z.sub_diag. simpl.
    repeat split; lia.
  - exists (Pos.iter xO p d). rewrite Z.min_r by lia.
    rewrite digits_shift_left, shift_left_value.
    replace (e - e0) with (Z.pos d) by lia. repeat split; lia.
Qed.

Lemma binary_round_magnitude (s : bool) (p : positive) (e : Z) :
  -149 < digits p + e < 128 -> e <= 104 ->
  exists m' e',
    binary_round 24 128 s p e = S754_finite s m' e'
    /\ digits p + e <= digits m' + e' <= digits p + e + 1
    /\ e' <= 104.
Proof.
  intros HD He. unfold binary_round. fold (digits p).
  destruct (shl_align_magnitude p e (fexp 24 128 (digits p + e)))
    as (p' & -> & Hd & _).
  destruct (binary_round_aux_magnitude s p'
              (Z.min e (fexp 24 128 (digits p + e))) loc_Exact)
    as (m' & e' & -> & Hb & He'); [lia|lia|].
  exists m', e'. split; [reflexivity|]. split; lia.
Qed.

Lemma digits_add (p q : positive) :
  Z.max (digits p) (digits q) <= digits (p + q)
  <= Z.max (digits p) (digits q) + 1.
Proof.
  pose proof (digits_bounds p) as [Hpl Hpu].
  pose proof (digits_bounds q) as [Hql Hqu].
  pose proof (digits_pos p). pose proof (digits_pos q).
  split.
  - assert (Hp : digits p - 1 < digits (p + q))
      by (apply digits_above; rewrite Pos2Z.inj_add; lia).
    assert (Hq : digits q - 1 < digits (p + q))
      by (apply digits_above; rewrite Pos2Z.inj_add; lia).
    lia.
  - apply digits_below. rewrite Pos2Z.inj_add, Z.pow_add_r, Z.pow_1_r by lia.
    assert (2 ^ digits p <= 2 ^ Z.max (digits p) (digits q))
      by (apply Z.pow_le_mono_r; lia).
    assert (2 ^ digits q <= 2 ^ Z.max (digits p) (digits q))
      by (apply Z.pow_le_mono_r; lia).
    lia.
Qed.

Lemma float_of_int_magnitude (n : Z) :
  0 < n < 2 ^ 31 ->
  exists m e,
    float_of_int n = S754_finite false m e
    /\ 1 <= digits m + e <= 32 /\ e <= 104.
Proof.
  intros Hn. destruct n as [|p|p]; [lia| |lia].
  unfold float_of_int, binary_normalize.
  assert (Hd : digits p <= 31) by (apply digits_below; lia).
  pose proof (digits_pos p).
  destruct (binary_round_magnitude false p 0) as (m & e & -> & Hb & He);
    [lia|lia|].
  exists m, e. split; [reflexivity|]. split; lia.
Qed.

Lemma fadd_one_magnitude (m : positive) (e : Z) :
  1 <= digits m + e <= 32 ->
  exists m' e',
    fadd (S754_finite false m e) (float_of_int 1) = S754_finite false m' e'
    /\ 1 <= digits m' + e'.
Proof.
  intros HD.
  change (float_of_int 1) with (S754_finite false 8388608 (-23)).
  unfold fadd, SFadd.
  destruct (shl_align_magnitude m e (Z.min e (-23))) as (m1 & E1 & Hd1 & _).
  destruct (shl_align_magnitude 8388608 (-23) (Z.min e (-23)))
    as (o1 & E2 & Hd2 & _).
  rewrite E1, E2. simpl fst. simpl cond_Zopp.
  change (digits 8388608) with 24 in Hd2.
  change (Z.pos m1 + Z.pos o1) with (Z.pos (m1 + o1)).
  unfold binary_normalize.
  pose proof (digits_add m1 o1) as Hs.
  destruct (binary_round_magnitude false (m1 + o1) (Z.min e (-23)))
    as (m' & e' & -> & Hb & _); [lia|lia|].
  exists m', e'. split; [reflexivity|]. lia.
Qed.

(** The divisor [(float)count + 1] of the slot formula is a finite positive
    float for every non-negative [int]. *)
Lemma divisor_magnitude (count : Z) :
  0 <= count < 2 ^ 31 ->
  exists m e,
    fadd (float_of_int count) (float_of_int 1) = S754_finite false m e
    /\ 1 <= digits m + e.
Proof.
  intros Hc. destruct (Z.eq_dec count 0) as [->|Hne].
  - exists 8388608%positive, (-23). split; [reflexivity|]. vm_compute. discriminate.
  - destruct (float_of_int_magnitude count) as (m & e & -> & Hb & _); [lia|].
    now apply fadd_one_magnitude.
Qed.


Lemma shr_1_even (z : Z) :
  0 <= z ->
  shr_1 (Build_shr_record (2 * z) false false) = Build_shr_record z false false.
Proof. intros Hz. destruct z as [|p|p]; [reflexivity|reflexivity|lia]. Qed.

(** Shifting out [q] zero bits loses nothing. *)
Lemma shr_iter_exact (q : positive) (m : Z) :
  0 <= m ->
  SpecFloat.iter_pos shr_1 q (Build_shr_record (m * 2 ^ Z.pos q) false false)
  = Build_shr_record m false false.
Proof.
  intros Hm.
  assert (Hstep : forall j x, 0 <= j ->
    (j <= Z.pos q ->
     x = Build_shr_record (m * 2 ^ (Z.pos q - j)) false false) ->
    (j + 1 <= Z.pos q ->
     shr_1 x = Build_shr_record (m * 2 ^ (Z.pos q - (j + 1))) false false)).
  { intros j x Hj Hx Hle. rewrite Hx by lia.
    replace (m * 2 ^ (Z.pos q - j)) with (2 * (m * 2 ^ (Z.pos q - (j + 1)))).
    - apply shr_1_even. apply Z.mul_nonneg_nonneg; [lia|].
      apply Z.pow_nonneg; lia.
    - replace (Z.pos q - j) with (Z.succ (Z.pos q - (j + 1))) by lia.
      rewrite Z.pow_succ_r by lia. ring. }
  pose proof (iter_pos_count shr_1
    (fun j x => j <= Z.pos q ->
       x = Build_shr_record (m * 2 ^ (Z.pos q - j)) false false)
    Hstep q 0 (Build_shr_record (m * 2 ^ Z.pos q) false false)) as H.
  simpl in H. rewrite H; [|lia| |lia].
  - now rewrite Z.sub_diag, Z.mul_1_r.
  - intros _. now rewrite Z.sub_0_r.
Qed.

Lemma digits_scaled (a b : positive) (k : Z) :
  0 <= k -> Z.pos a = Z.pos b * 2 ^ k -> digits a = digits b + k.
Proof.
  intros Hk Hab. pose proof (digits_bounds b) as [Hl Hu].
  pose proof (digits_pos b).
  assert (H2 : 0 < 2 ^ k) by (apply Z.pow_pos_nonneg; lia).
  apply Z.le_antisymm.
  - apply digits_below. rewrite Hab, Z.pow_add_r by lia. nia.
  - assert (Hlow : 2 ^ (digits b + k - 1) <= Z.pos a).
    { rewrite Hab. replace (digits b + k - 1) with ((digits b - 1) + k) by lia.
      rewrite Z.pow_add_r by lia. nia. }
    pose proof (digits_above _ _ Hlow). lia.
Qed.

(** A mantissa whose low [q] bits are zero, [q] being the shift that takes
    it to the exponent of its binade, is rounded to itself. *)
Lemma binary_round_aux_exact (s : bool) (p p' : positive) (e q : Z) :
  0 <= q -> Z.pos p = Z.pos p' * 2 ^ q ->
  fexp 24 128 (digits p + e) = e + q -> e + q <= 104 ->
  binary_round_aux 24 128 s (Z.pos p) e loc_Exact = S754_finite s p' (e + q).
Proof.
  intros Hq Hp Hf He.
  pose proof (digits_scaled p p' q Hq Hp) as Hd.
  assert (Hsecond :
    shr_fexp 24 128 (Z.pos p') (e + q) loc_Exact
    = (Build_shr_record (Z.pos p') false false, e + q)).
  { unfold shr_fexp, shr. simpl Zdigits2. fold (digits p').
    replace (digits p' + (e + q)) with (digits p + e) by lia.
    rewrite Hf, Z.sub_diag. reflexivity. }
  unfold binary_round_aux.
  assert (Hfirst :
    shr_fexp 24 128 (Z.pos p) e loc_Exact
    = (Build_shr_record (Z.pos p') false false, e + q)).
  { unfold shr_fexp, shr. simpl Zdigits2. fold (digits p).
    rewrite Hf. replace (e + q - e) with q by lia.
    destruct q as [|q|q]; [| |lia].
    - simpl. rewrite Z.add_0_r. do 2 f_equal.
      rewrite Z.pow_0_r, Z.mul_1_r in Hp. exact Hp.
    - simpl shr_record_of_loc. rewrite Hp, shr_iter_exact by lia.
      reflexivity. }
  rewrite Hfirst. simpl shr_m. simpl loc_of_shr_record.
  simpl round_nearest_even. rewrite Hsecond. simpl shr_m.
  replace (e + q <=? 128 - 24) with true by (symmetry; apply Z.leb_le; lia).
  reflexivity.
Qed.

Lemma float_value_scaled (m : positive) (e : Z) (n : Z) :
  e <= 0 -> Z.pos m = n * 2 ^ (- e) ->
  exists v, float_value (S754_finite false m e) = Some v
            /\ (v == inject_Z n)%Q.
Proof.
  intros He Hm. simpl. eexists. split; [reflexivity|].
  destruct (Z.leb_spec 0 e) as [H0|H0].
  - assert (e = 0) by lia. subst e.
    change (- 0) with 0 in Hm. rewrite Z.pow_0_r, Z.mul_1_r in *.
    now rewrite Hm.
  - assert (H2 : 0 < 2 ^ (- e)) by (apply Z.pow_pos_nonneg; lia).
    unfold Qeq. simpl. rewrite Z2Pos.id by exact H2. lia.
Qed.

(** Integers below [2^24] convert exactly. *)
Lemma float_of_int_small (p : positive) :
  Z.pos p < 2 ^ 24 ->
  exists p',
    float_of_int (Z.pos p) = S754_finite false p' (digits p - 24)
    /\ Z.pos p' = Z.pos p * 2 ^ (24 - digits p).
Proof.
  intros Hp. pose proof (digits_below p 24 Hp) as Hd.
  pose proof (digits_pos p).
  unfold float_of_int, binary_normalize, binary_round. fold (digits p).
  rewrite Z.add_0_r.
  destruct (shl_align_magnitude p 0 (fexp 24 128 (digits p)))
    as (p' & -> & Hd' & Hv).
  assert (Hmin : Z.min 0 (fexp 24 128 (digits p)) = digits p - 24)
    by (unfold fexp, emin; lia).
  rewrite Hmin in *.
  exists p'. split.
  - replace (digits p - 24) with (digits p - 24 + 0) at 2 by lia.
    apply binary_round_aux_exact; [lia|lia| |lia].
    replace (digits p' + (digits p - 24)) with (digits p) by lia.
    unfold fexp, emin. lia.
  - rewrite Hv. f_equal. f_equal. lia.
Qed.

Lemma exact_int_small (n : Z) : 0 <= n < 2 ^ 24 -> exact_int n.
Proof.
  intros Hn. unfold exact_int. destruct n as [|p|p]; [reflexivity| |lia].
  destruct (float_of_int_small p) as (p' & -> & Hv); [lia|].
  pose proof (digits_below p 24 ltac:(lia)).
  destruct (float_value_scaled p' (digits p - 24) (Z.pos p)) as (v & -> & Hq);
    [lia| |exact Hq].
  rewrite Hv. f_equal. f_equal. lia.
Qed.


(** ** Binary32 rounding errors

    The error of one multiplication, division and addition: a result in the
    normal range is within [eps] of the exact one, whatever the rounding
    does with the last digit. *)

Lemma valid_exponent (sg : bool) (m : positive) (e : Z) :
  valid_binary 24 128 (S754_finite sg m e) = true -> -149 <= e.
Proof.
  simpl. unfold bounded, canonical_mantissa, fexp, emin.
  intros H. apply andb_prop in H as [H _]. apply Z.eqb_eq in H. lia.
Qed.

Lemma pow2_pos (z : Z) : (0 < 2 ^ z)%Q.
Proof. apply Qpower_0_lt. reflexivity. Qed.

Lemma pow2_add (a b : Z) : (2 ^ (a + b) == 2 ^ a * 2 ^ b)%Q.
Proof. apply Qpower_plus. discriminate. Qed.

Lemma pow2_inject (z : Z) : 0 <= z -> (inject_Z (2 ^ z) == 2 ^ z)%Q.
Proof. intros Hz. now rewrite Zpower_Qpower. Qed.

Lemma pow2_le (a b : Z) : a <= b -> (2 ^ a <= 2 ^ b)%Q.
Proof. intros H. apply Qpower_le_compat_l; [exact H|]. discriminate. Qed.

Lemma pow2_lt_inv (a b : Z) : (2 ^ a < 2 ^ b)%Q -> a < b.
Proof. intros H. apply (Qpower_lt_compat_l_inv 2); [exact H|]. reflexivity. Qed.

Lemma F2Q_scale (m k e : Z) :
  0 <= k -> (F2Q (m * 2 ^ k) e == F2Q m (e + k))%Q.
Proof.
  intros Hk. unfold F2Q.
  rewrite inject_Z_mult, pow2_inject, pow2_add by exact Hk. ring.
Qed.

Lemma F2Q_add (a b e : Z) : (F2Q (a + b) e == F2Q a e + F2Q b e)%Q.
Proof. unfold F2Q. rewrite inject_Z_plus. ring. Qed.

Lemma F2Q_opp (a e : Z) : (F2Q (- a) e == - F2Q a e)%Q.
Proof. unfold F2Q. rewrite inject_Z_opp. ring. Qed.

Lemma F2Q_le (a b e : Z) : a <= b -> (F2Q a e <= F2Q b e)%Q.
Proof.
  intros H. unfold F2Q. pose proof (pow2_pos e).
  assert (inject_Z a <= inject_Z b)%Q by (rewrite <- Zle_Qle; exact H).
  nra.
Qed.

Lemma F2Q_lt (a b e : Z) : a < b -> (F2Q a e < F2Q b e)%Q.
Proof.
  intros H. unfold F2Q. pose proof (pow2_pos e).
  assert (inject_Z a < inject_Z b)%Q by (rewrite <- Zlt_Qlt; exact H).
  nra.
Qed.

(** The number a finite float stands for. *)
Lemma float_value_F2Q (s : bool) (m : positive) (e : Z) :
  exists v, float_value (S754_finite s m e) = Some v
            /\ (v == F2Q (cond_Zopp s (Z.pos m)) e)%Q.
Proof.
  simpl float_value. eexists. split; [reflexivity|].
  assert (Hmag : ((if 0 <=? e then inject_Z (Z.pos m * 2 ^ e)
                   else Z.pos m # Z.to_pos (2 ^ (- e)))
                  == F2Q (Z.pos m) e)%Q).
  { destruct (Z.leb_spec 0 e) as [He|He].
    - unfold F2Q. now rewrite inject_Z_mult, pow2_inject.
    - assert (H2 : 0 < 2 ^ (- e)) by (apply Z.pow_pos_nonneg; lia).
      unfold F2Q. rewrite Qmake_Qdiv, Z2Pos.id, pow2_inject by lia.
      rewrite Qpower_opp. unfold Qdiv. 
      rewrite <- (Qinv_involutive (2 ^ e)) at 2. reflexivity. }
  destruct s; simpl cond_Zopp.
  - rewrite Hmag. change (Z.neg m) with (- Z.pos m). now rewrite F2Q_opp.
  - exact Hmag.
Qed.

Lemma F2Q_bounds (p : positive) (e : Z) :
  (2 ^ (digits p + e - 1) <= F2Q (Z.pos p) e)%Q
  /\ (F2Q (Z.pos p) e < 2 ^ (digits p + e))%Q.
Proof.
  pose proof (digits_bounds p) as [Hl Hu]. pose proof (digits_pos p) as Hd.
  pose proof (pow2_pos e) as He.
  replace (digits p + e - 1) with ((digits p - 1) + e) by lia.
  rewrite !pow2_add. split.
  - rewrite <- (pow2_inject (digits p - 1)) by lia. now apply (F2Q_le _ _ e).
  - rewrite <- (pow2_inject (digits p)) by lia. now apply (F2Q_lt _ _ e).
Qed.

(** The first half of a rounding drops the low bits of the mantissa. *)
Lemma shr_fexp_value (p : positive) (e : Z) (l : location) :
  -149 < digits p + e ->
  exists mrs p',
    shr_fexp 24 128 (Z.pos p) e l
    = (mrs, Z.max e (fexp 24 128 (digits p + e)))
    /\ shr_m mrs = Z.pos p'
    /\ digits p' + Z.max e (fexp 24 128 (digits p + e)) = digits p + e
    /\ Z.pos p' = Z.pos p / 2 ^ (Z.max e (fexp 24 128 (digits p + e)) - e).
Proof.
  intros HD. unfold shr_fexp, shr. simpl Zdigits2. fold (digits p).
  destruct (fexp 24 128 (digits p + e) - e) as [|q|q] eqn:Ek.
  - exists (shr_record_of_loc (Z.pos p) l), p.
    rewrite shr_record_of_loc_m, Z.max_l by lia.
    rewrite Z.sub_diag, Z.div_1_r. repeat split.
  - assert (Hq : 0 < Z.pos q < digits p)
      by (unfold fexp, emin in Ek; lia).
    destruct (digits_shift_right p (Z.pos q) Hq) as (p' & Hp' & Hd').
    exists (SpecFloat.iter_pos shr_1 q (shr_record_of_loc (Z.pos p) l)), p'.
    rewrite shr_m_iter, shr_record_of_loc_m
      by (rewrite shr_record_of_loc_m; lia).
    rewrite Z.max_r by lia.
    replace (e + Z.pos q) with (fexp 24 128 (digits p + e)) by lia.
    split; [reflexivity|]. split; [exact Hp'|]. split; [lia|].
    rewrite <- Hp'. f_equal. f_equal. lia.
  - exists (shr_record_of_loc (Z.pos p) l), p.
    rewrite shr_record_of_loc_m, Z.max_l by lia.
    rewrite Z.sub_diag, Z.div_1_r. repeat split.
Qed.

(** A rounding returns the mantissa cut to the exponent of its binade, or
    that mantissa plus one. *)
Lemma binary_round_aux_bracket (s : bool) (p : positive) (e : Z)
    (l : location) :
  -149 < digits p + e < 128 -> e <= 104 ->
  exists m' e',
    binary_round_aux 24 128 s (Z.pos p) e l = S754_finite s m' e'
    /\ Z.max e (fexp 24 128 (digits p + e)) <= e' <= 104
    /\ Z.pos p / 2 ^ (Z.max e (fexp 24 128 (digits p + e)) - e)
       <= Z.pos m' * 2 ^ (e' - Z.max e (fexp 24 128 (digits p + e)))
       <= Z.pos p / 2 ^ (Z.max e (fexp 24 128 (digits p + e)) - e) + 1.
Proof.
  intros HD He. unfold binary_round_aux.
  destruct (shr_fexp_value p e l) as (mrs1 & p1 & -> & Hm1 & HD1 & Hv1); [lia|].
  rewrite Hm1. rewrite <- Hv1.
  pose proof (round_nearest_even_range (Z.pos p1) (loc_of_shr_record mrs1))
    as Hr.
  destruct (round_nearest_even (Z.pos p1) (loc_of_shr_record mrs1))
    as [|p2|p2] eqn:E2; [lia| |lia].
  pose proof (digits_succ p1 p2 Hr) as Hd2.
  set (e1 := Z.max e (fexp 24 128 (digits p + e))) in *.
  destruct (shr_fexp_value p2 e1 loc_Exact)
    as (mrs3 & p3 & -> & Hm3 & HD3 & Hv3); [lia|].
  rewrite Hm3.
  set (e3 := Z.max e1 (fexp 24 128 (digits p2 + e1))) in *.
  assert (He3 : e3 <= 104) by (subst e3 e1; unfold fexp, emin in *; lia).
  replace (e3 <=? 128 - 24) with true by (symmetry; apply Z.leb_le; lia).
  exists p3, e3. split; [reflexivity|]. split; [lia|].
  assert (Hk : e3 - e1 = 0
               \/ (e3 - e1 = 1 /\ Z.pos p2 = 2 * 2 ^ (digits p1 - 1))).
  { destruct (Z.eq_dec e3 e1) as [E|E]; [left; lia|right].
    assert (Hdig : digits p2 = digits p1 + 1)
      by (subst e3 e1; unfold fexp, emin in *; lia).
    split; [subst e3 e1; unfold fexp, emin in *; lia|].
    pose proof (digits_bounds p1) as [_ Hu1].
    pose proof (digits_bounds p2) as [Hl2 _].
    pose proof (digits_pos p1).
    replace (digits p2 - 1) with (digits p1) in Hl2 by lia.
    replace (digits p1) with (Z.succ (digits p1 - 1)) in Hl2, Hu1 by lia.
    rewrite Z.pow_succ_r in Hl2, Hu1 by lia. lia. }
  destruct Hk as [Hk|[Hk Hp2]]; rewrite Hk in *.
  - rewrite Z.pow_0_r, Z.div_1_r in Hv3. rewrite Z.pow_0_r. lia.
  - rewrite Z.pow_1_r in *. rewrite Hp2 in Hv3.
    rewrite Z.mul_comm, Z.div_mul in Hv3 by lia. lia.
Qed.

(** A mantissa of at least 24 digits, with or without a remainder, is
    rounded to within [eps] of the number it stands for, as long as the
    result is a normal number. *)
Lemma round_aux_error (s : bool) (p : positive) (e : Z) (l : location)
    (v : Q) :
  24 <= digits p -> -125 <= digits p + e <= 127 ->
  (F2Q (Z.pos p) e <= v)%Q -> (v < F2Q (Z.pos p + 1) e)%Q ->
  exists m' e',
    binary_round_aux 24 128 s (Z.pos p) e l = S754_finite s m' e'
    /\ -149 <= e'
    /\ ((1 - eps) * v <= F2Q (Z.pos m') e')%Q
    /\ (F2Q (Z.pos m') e' <= (1 + eps) * v)%Q.
Proof.
  intros Hd HD Hlo Hhi.
  destruct (binary_round_aux_bracket s p e l) as (m' & e' & -> & He' & Hb);
    [lia|lia|].
  assert (He1 : Z.max e (fexp 24 128 (digits p + e)) = digits p + e - 24)
    by (unfold fexp, emin; lia).
  rewrite He1 in *.
  set (e1 := digits p + e - 24) in *. set (k := e1 - e) in *.
  assert (Hk : 0 <= k) by (subst k e1; lia).
  assert (H2k : 0 < 2 ^ k) by (apply Z.pow_pos_nonneg; lia).
  set (p1 := Z.pos p / 2 ^ k) in *.
  assert (Hp1 : p1 * 2 ^ k <= Z.pos p < (p1 + 1) * 2 ^ k).
  { subst p1. pose proof (Z.mul_div_le (Z.pos p) (2 ^ k) H2k).
    pose proof (Z.mul_succ_div_gt (Z.pos p) (2 ^ k) H2k). lia. }
  assert (Hbig : 2 ^ 23 <= p1).
  { subst p1. apply Z.div_le_lower_bound; [exact H2k|].
    pose proof (digits_bounds p) as [Hl _].
    rewrite Z.mul_comm, <- Z.pow_add_r by lia.
    replace (23 + k) with (digits p - 1) by (subst k e1; lia). exact Hl. }
  exists m', e'. split; [reflexivity|]. split; [subst e1; lia|].
  assert (Hr : (F2Q (Z.pos m') e' == F2Q (Z.pos m' * 2 ^ (e' - e1)) e1)%Q).
  { rewrite F2Q_scale by lia. now replace (e1 + (e' - e1)) with e' by lia. }
  assert (HA : (F2Q p1 e1 <= v)%Q).
  { replace e1 with (e + k) by (subst k; lia). rewrite <- F2Q_scale by lia.
    eapply Qle_trans; [|exact Hlo]. apply F2Q_le. lia. }
  assert (HB : (v < F2Q (p1 + 1) e1)%Q).
  { replace e1 with (e + k) by (subst k; lia). rewrite <- F2Q_scale by lia.
    eapply Qlt_le_trans; [exact Hhi|]. apply F2Q_le. lia. }
  assert (Hr1 : (F2Q p1 e1 <= F2Q (Z.pos m') e')%Q)
    by (rewrite Hr; apply F2Q_le; lia).
  assert (Hr2 : (F2Q (Z.pos m') e' <= F2Q (p1 + 1) e1)%Q)
    by (rewrite Hr; apply F2Q_le; lia).
  assert (HE : (2 ^ e1 <= eps * F2Q p1 e1)%Q).
  { unfold F2Q. pose proof (pow2_pos e1).
    assert (inject_Z (2 ^ 23) <= inject_Z p1)%Q
      by (rewrite <- Zle_Qle; exact Hbig).
    change (inject_Z (2 ^ 23)) with (8388608 # 1)%Q in *. unfold eps.
    nra. }
  rewrite F2Q_add in HB, Hr2.
  assert (H1 : (F2Q 1 e1 == 2 ^ e1)%Q) by (unfold F2Q; ring).
  rewrite H1 in HB, Hr2. unfold eps in *. split; lra.
Qed.

Lemma F2Q_pow2 (d e : Z) : 0 <= d -> (F2Q (2 ^ d) e == 2 ^ (d + e))%Q.
Proof. intros Hd. unfold F2Q. now rewrite pow2_inject, pow2_add. Qed.

(** The magnitude of a number read off a bound on it. *)
Lemma magnitude_below (p : positive) (e b : Z) :
  (F2Q (Z.pos p) e < 2 ^ b)%Q -> digits p + e <= b.
Proof.
  intros H. destruct (F2Q_bounds p e) as [Hl _].
  assert (Hlt : (2 ^ (digits p + e - 1) < 2 ^ b)%Q) by lra.
  apply pow2_lt_inv in Hlt. lia.
Qed.

Lemma magnitude_above (p : positive) (e b : Z) :
  (2 ^ b < F2Q (Z.pos p + 1) e)%Q -> b < digits p + e.
Proof.
  intros H. apply pow2_lt_inv.
  eapply Qlt_le_trans; [exact H|].
  pose proof (digits_bounds p) as [_ Hu]. pose proof (digits_pos p).
  rewrite <- F2Q_pow2 by lia. apply F2Q_le. lia.
Qed.

(** A product one of whose factors has a full mantissa is rounded to within
    [eps], as long as the result is a normal number. *)
Lemma fmul_error (mx my : positive) (ex ey : Z) (v : Q) :
  24 <= digits my ->
  (v == F2Q (Z.pos mx) ex * F2Q (Z.pos my) ey)%Q ->
  (2 ^ (-126) <= v)%Q -> (v < 2 ^ 127)%Q ->
  exists m' e',
    fmul (S754_finite false mx ex) (S754_finite false my ey)
    = S754_finite false m' e'
    /\ -149 <= e'
    /\ ((1 - eps) * v <= F2Q (Z.pos m') e')%Q
    /\ (F2Q (Z.pos m') e' <= (1 + eps) * v)%Q.
Proof.
  intros Hd Hv Hlo Hhi. unfold fmul, SFmul. simpl xorb.
  assert (HF : (F2Q (Z.pos (mx * my)) (ex + ey) == v)%Q).
  { rewrite Hv. unfold F2Q. rewrite Pos2Z.inj_mul, inject_Z_mult, pow2_add.
    ring. }
  assert (Hdig : 24 <= digits (mx * my)).
  { pose proof (digits_bounds my) as [Hl _].
    assert (2 ^ 23 <= 2 ^ (digits my - 1)) by (apply Z.pow_le_mono_r; lia).
    assert (Hge : 2 ^ 23 <= Z.pos (mx * my)) by (rewrite Pos2Z.inj_mul; nia).
    pose proof (digits_above _ _ Hge). lia. }
  assert (Hup : (v < F2Q (Z.pos (mx * my) + 1) (ex + ey))%Q)
    by (rewrite <- HF; apply F2Q_lt; lia).
  apply round_aux_error.
  - exact Hdig.
  - split.
    + assert (H : -126 < digits (mx * my) + (ex + ey)); [|lia].
      apply magnitude_above. lra.
    + apply magnitude_below. now rewrite HF.
  - rewrite HF. apply Qle_refl.
  - exact Hup.
Qed.

Lemma Qmult_cancel_le (a b c : Q) :
  (0 < c)%Q -> (a * c <= b * c)%Q -> (a <= b)%Q.
Proof. intros Hc H. rewrite <- (Qmult_le_r _ _ c); assumption. Qed.

Lemma Qmult_cancel_lt (a b c : Q) :
  (0 < c)%Q -> (a * c < b * c)%Q -> (a < b)%Q.
Proof. intros Hc H. rewrite <- (Qmult_lt_r _ _ c); assumption. Qed.

(** A quotient by a divisor of full mantissa is rounded to within [eps], as
    long as the result is a normal number. *)
Lemma fdiv_error (mx my : positive) (ex ey : Z) (v : Q) :
  digits my = 24 ->
  (v * F2Q (Z.pos my) ey == F2Q (Z.pos mx) ex)%Q ->
  (2 ^ (-124) <= v)%Q -> (v < 2 ^ 127)%Q ->
  exists m' e',
    fdiv (S754_finite false mx ex) (S754_finite false my ey)
    = S754_finite false m' e'
    /\ -149 <= e'
    /\ ((1 - eps) * v <= F2Q (Z.pos m') e')%Q
    /\ (F2Q (Z.pos m') e' <= (1 + eps) * v)%Q.
Proof.
  intros Hd Hv Hlo Hhi.
  unfold fdiv, SFdiv, SFdiv_core_binary. simpl xorb.
  change (Zdigits2 (Z.pos mx)) with (digits mx).
  change (Zdigits2 (Z.pos my)) with (digits my). rewrite Hd.
  set (z := digits mx + ex - (24 + ey)).
  assert (Hv0 : (0 < v)%Q) by (pose proof (pow2_pos (-124)); lra).
  assert (Hz : -125 < z).
  { destruct (F2Q_bounds my ey) as [Hyl _].
    destruct (F2Q_bounds mx ex) as [_ Hxu]. rewrite Hd in Hyl.
    assert (Hp : (2 ^ (-124) * 2 ^ (24 + ey - 1) < 2 ^ (digits mx + ex))%Q).
    { pose proof (pow2_pos (24 + ey - 1)). pose proof (pow2_pos (-124)).
      assert (2 ^ (-124) * 2 ^ (24 + ey - 1) <= v * F2Q (Z.pos my) ey)%Q
        by nra.
      lra. }
    rewrite <- pow2_add in Hp. apply pow2_lt_inv in Hp. subst z. lia. }
  assert (Hf : fexp 24 128 z = z - 24) by (unfold fexp, emin; lia).
  rewrite Hf.
  set (e' := Z.min (z - 24) (ex - ey)).
  set (s := ex - ey - e').
  assert (Hs : 0 <= s) by (subst s e'; lia).
  assert (Hm' : match s with
                | Z.pos _ => Z.shiftl (Z.pos mx) s
                | 0 => Z.pos mx
                | Z.neg _ => 0
                end = Z.pos mx * 2 ^ s).
  { destruct s as [|q|q] eqn:Es; [simpl; lia| |lia].
    now rewrite Z.shiftl_mul_pow2 by lia. }
  rewrite Hm'. clear Hm'.
  pose proof (Z_div_mod (Z.pos mx * 2 ^ s) (Z.pos my) ltac:(lia)) as Hdm.
  destruct (Z.div_eucl (Z.pos mx * 2 ^ s) (Z.pos my)) as [q r].
  destruct Hdm as [Heq Hr].
  assert (Hbig : 2 ^ 47 <= Z.pos mx * 2 ^ s).
  { pose proof (digits_bounds mx) as [Hl _]. pose proof (digits_pos mx).
    assert (2 ^ 47 <= 2 ^ (digits mx - 1 + s))
      by (apply Z.pow_le_mono_r; subst s e' z; lia).
    rewrite Z.pow_add_r in H0 by lia.
    assert (0 < 2 ^ s) by (apply Z.pow_pos_nonneg; lia). nia. }
  assert (Hmy : Z.pos my < 2 ^ 24)
    by (pose proof (digits_bounds my) as [_ Hu]; now rewrite Hd in Hu).
  assert (Hq : 2 ^ 23 <= q).
  { destruct (Z.le_gt_cases (2 ^ 23) q) as [|Hlt]; [assumption|exfalso].
    assert (Z.pos my * q <= Z.pos my * (2 ^ 23 - 1)) by nia.
    change (2 ^ 23) with 8388608 in *. change (2 ^ 24) with 16777216 in *.
    change (2 ^ 47) with 140737488355328 in *. nia. }
  destruct q as [|pq|pq]; [change (2 ^ 23) with 8388608 in Hq; lia| |lia].
  assert (Hvm : (v * inject_Z (Z.pos my) == F2Q (Z.pos mx * 2 ^ s) e')%Q).
  { apply (Qmult_inj_r _ _ (2 ^ ey)).
    - pose proof (pow2_pos ey). lra.
    - rewrite F2Q_scale by exact Hs.
      replace (e' + s) with (ex - ey) by (subst s; lia).
      unfold F2Q in *. rewrite <- Qmult_assoc, Hv, <- Qmult_assoc, <- pow2_add.
      now replace (ex - ey + ey) with ex by lia. }
  rewrite Heq in Hvm. unfold F2Q in Hvm.
  rewrite inject_Z_plus, inject_Z_mult in Hvm.
  assert (Hr1 : (0 <= inject_Z r)%Q) by (rewrite <- (Zle_Qle 0); lia).
  assert (Hr2 : (inject_Z r < inject_Z (Z.pos my))%Q)
    by (rewrite <- Zlt_Qlt; lia).
  assert (Hy0 : (0 < inject_Z (Z.pos my))%Q) by (rewrite <- (Zlt_Qlt 0); lia).
  pose proof (pow2_pos e') as HE.
  assert (Hlow : (F2Q (Z.pos pq) e' <= v)%Q).
  { apply (Qmult_cancel_le _ _ (inject_Z (Z.pos my)) Hy0).
    rewrite Hvm. unfold F2Q. nra. }
  assert (Hupp : (v < F2Q (Z.pos pq + 1) e')%Q).
  { apply (Qmult_cancel_lt _ _ (inject_Z (Z.pos my)) Hy0).
    rewrite Hvm. unfold F2Q. rewrite inject_Z_plus.
    change (inject_Z 1) with 1%Q.
    assert (inject_Z r * 2 ^ e' < inject_Z (Z.pos my) * 2 ^ e')%Q
      by (apply Qmult_lt_compat_r; assumption).
    lra. }
  apply round_aux_error.
  - pose proof (digits_above pq 23 Hq). lia.
  - split.
    + assert (H : -124 < digits pq + e'); [|lia].
      apply magnitude_above. lra.
    + apply magnitude_below. lra.
  - exact Hlow.
  - exact Hupp.
Qed.

(** A number whose exponent is not below that of the smallest float is
    rounded to within [eps]: where it could underflow it is representable. *)
Lemma binary_round_error (s : bool) (p : positive) (e : Z) :
  -149 <= e -> digits p + e <= 127 ->
  exists m' e',
    binary_round 24 128 s p e = S754_finite s m' e'
    /\ -149 <= e'
    /\ ((1 - eps) * F2Q (Z.pos p) e <= F2Q (Z.pos m') e')%Q
    /\ (F2Q (Z.pos m') e' <= (1 + eps) * F2Q (Z.pos p) e)%Q.
Proof.
  intros He HD. unfold binary_round. fold (digits p).
  pose proof (digits_pos p) as Hdp.
  destruct (shl_align_magnitude p e (fexp 24 128 (digits p + e)))
    as (p' & -> & Hd & Hv).
  set (e0 := Z.min e (fexp 24 128 (digits p + e))) in *.
  assert (HF : (F2Q (Z.pos p') e0 == F2Q (Z.pos p) e)%Q).
  { rewrite Hv, F2Q_scale by lia. now replace (e0 + (e - e0)) with e by lia. }
  assert (H0 : (0 < F2Q (Z.pos p) e)%Q).
  { unfold F2Q. pose proof (pow2_pos e).
    assert (0 < inject_Z (Z.pos p))%Q by (rewrite <- (Zlt_Qlt 0); lia). nra. }
  destruct (Z.le_gt_cases (fexp 24 128 (digits p + e)) e) as [Hle|Hgt].
  - exists p', e0. split.
    + replace e0 with (e0 + 0) at 2 by lia.
      apply binary_round_aux_exact; [lia|lia| |].
      * rewrite Hd. subst e0. lia.
      * subst e0. unfold fexp, emin in *. lia.
    + split; [subst e0; unfold fexp, emin; lia|].
      rewrite HF. unfold eps. split; lra.
  - assert (E0 : e0 = e) by (subst e0; lia). rewrite E0 in *.
    assert (Hp' : p' = p).
    { rewrite Z.sub_diag, Z.pow_0_r, Z.mul_1_r in Hv. now injection Hv. }
    subst p'.
    apply round_aux_error.
    + unfold fexp, emin in Hgt. lia.
    + unfold fexp, emin in Hgt. lia.
    + apply Qle_refl.
    + apply F2Q_lt. lia.
Qed.

(** The sum of a float and a positive finite float is within [eps] of the
    sum of the two numbers. *)
Lemma fadd_error (x : float) (mt : positive) (et : Z) (vx : Q) :
  float_value x = Some vx -> valid_binary 24 128 x = true -> -149 <= et ->
  (- 2 ^ 127 < vx + F2Q (Z.pos mt) et)%Q ->
  (vx + F2Q (Z.pos mt) et < 2 ^ 127)%Q ->
  exists r,
    float_value (fadd x (S754_finite false mt et)) = Some r
    /\ (0 <= vx + F2Q (Z.pos mt) et ->
        (1 - eps) * (vx + F2Q (Z.pos mt) et) <= r
        /\ r <= (1 + eps) * (vx + F2Q (Z.pos mt) et))%Q
    /\ (vx + F2Q (Z.pos mt) et <= 0 ->
        (1 + eps) * (vx + F2Q (Z.pos mt) et) <= r
        /\ r <= (1 - eps) * (vx + F2Q (Z.pos mt) et))%Q.
Proof.
  intros Hx Hvalid Het Hlo Hhi.
  destruct x as [sx|sx| |sx mx ex]; try discriminate.
  - injection Hx as <-.
    destruct (float_value_F2Q false mt et) as (r & Hr & Hv).
    exists r. split; [exact Hr|]. simpl cond_Zopp in Hv. rewrite Hv.
    assert (0 < F2Q (Z.pos mt) et)%Q.
    { unfold F2Q. pose proof (pow2_pos et).
      assert (0 < inject_Z (Z.pos mt))%Q by (rewrite <- (Zlt_Qlt 0); lia).
      nra. }
    unfold eps. split; intros; split; lra.
  - pose proof (valid_exponent sx mx ex Hvalid) as Hex.
    destruct (float_value_F2Q sx mx ex) as (vx' & Hx' & Hvx).
    rewrite Hx in Hx'. injection Hx' as <-.
    unfold fadd, SFadd.
    destruct (shl_align_magnitude mx ex (Z.min ex et)) as (m1 & E1 & _ & Hm1).
    destruct (shl_align_magnitude mt et (Z.min ex et)) as (m2 & E2 & _ & Hm2).
    rewrite E1, E2. simpl fst. clear E1 E2.
    set (ez := Z.min ex et) in *.
    replace (Z.min ex ez) with ez in * by (subst ez; lia).
    replace (Z.min et ez) with ez in * by (subst ez; lia).
    set (mz := cond_Zopp sx (Z.pos m1) + cond_Zopp false (Z.pos m2)).
    assert (Hsum : (F2Q mz ez == vx + F2Q (Z.pos mt) et)%Q).
    { subst mz. rewrite F2Q_add, Hvx. simpl (cond_Zopp false _).
      rewrite Hm2, F2Q_scale by (subst ez; lia).
      replace (ez + (et - ez)) with et by lia.
      apply Qplus_inj_r. destruct sx; simpl cond_Zopp.
      - change (Z.neg m1) with (- Z.pos m1). change (Z.neg mx) with (- Z.pos mx).
        rewrite !F2Q_opp, Hm1, F2Q_scale by (subst ez; lia).
        now replace (ez + (ex - ez)) with ex by lia.
      - rewrite Hm1, F2Q_scale by (subst ez; lia).
        now replace (ez + (ex - ez)) with ex by lia. }
    clearbody mz. unfold binary_normalize.
    destruct mz as [|p|p].
    + exists 0%Q. split; [reflexivity|].
      assert (Hz : (F2Q 0 ez == 0)%Q) by (unfold F2Q; ring).
      unfold eps. split; intros; split; lra.
    + destruct (binary_round_error false p ez) as (m' & e' & -> & _ & Hb);
        [subst ez; lia|apply magnitude_below; lra|].
      destruct (float_value_F2Q false m' e') as (r & Hr & Hv).
      exists r. split; [exact Hr|]. simpl cond_Zopp in Hv.
      assert (0 < F2Q (Z.pos p) ez)%Q.
      { unfold F2Q. pose proof (pow2_pos ez).
        assert (0 < inject_Z (Z.pos p))%Q by (rewrite <- (Zlt_Qlt 0); lia).
        nra. }
      unfold eps in *. split; intros; split; lra.
    + change (Z.neg p) with (- Z.pos p) in *. rewrite F2Q_opp in Hsum.
      destruct (binary_round_error true p ez) as (m' & e' & -> & _ & Hb);
        [subst ez; lia|apply magnitude_below; lra|].
      destruct (float_value_F2Q true m' e') as (r & Hr & Hv).
      exists r. split; [exact Hr|]. simpl cond_Zopp in Hv.
      change (Z.neg m') with (- Z.pos m') in Hv. rewrite F2Q_opp in Hv.
      assert (0 < F2Q (Z.pos p) ez)%Q.
      { unfold F2Q. pose proof (pow2_pos ez).
        assert (0 < inject_Z (Z.pos p))%Q by (rewrite <- (Zlt_Qlt 0); lia).
        nra. }
      unfold eps in *. split; intros; split; lra.
Qed.

(** [(float)n + 1] for [n] up to [2^24 - 2]: a float of full mantissa that
    stands for [n + 1]. *)
Lemma fadd_one_shape (n : Z) :
  0 <= n < 2 ^ 24 - 1 ->
  exists r e,
    fadd (float_of_int n) (float_of_int 1) = S754_finite false r e
    /\ digits r = 24
    /\ (F2Q (Z.pos r) e == inject_Z n + 1)%Q.
Proof.
  intros Hn. destruct n as [|p|p]; [| |lia].
  - exists 8388608%positive, (-23). split; [reflexivity|].
    split; reflexivity.
  - destruct (float_of_int_small p) as (p' & -> & Hv); [lia|].
    pose proof (digits_below p 24 ltac:(lia)) as Hd.
    pose proof (digits_pos p) as Hd0.
    change (float_of_int 1) with (S754_finite false 8388608 (-23)).
    unfold fadd, SFadd.
    replace (Z.min (digits p - 24) (-23)) with (-23) by lia.
    destruct (shl_align_magnitude p' (digits p - 24) (-23))
      as (m1 & E1 & _ & Hm1).
    replace (Z.min (digits p - 24) (-23)) with (-23) in * by lia.
    rewrite E1. simpl fst. simpl cond_Zopp.
    change (Z.pos m1 + 8388608) with (Z.pos (m1 + 8388608)).
    unfold binary_normalize, binary_round.
    assert (Hsum : Z.pos (m1 + 8388608) = Z.pos (p + 1) * 2 ^ 23).
    { rewrite !Pos2Z.inj_add, Hm1, Hv, <- Z.mul_assoc, <- Z.pow_add_r by lia.
      replace (24 - digits p + (digits p - 24 - -23)) with 23 by lia.
      change (2 ^ 23) with 8388608. lia. }
    pose proof (digits_scaled _ _ 23 ltac:(lia) Hsum) as Hds.
    fold (digits (m1 + 8388608)). rewrite Hds.
    assert (Hd1 : digits (p + 1) <= 24)
      by (apply digits_below; rewrite Pos2Z.inj_add; lia).
    pose proof (digits_pos (p + 1)) as Hd10.
    destruct (shl_align_magnitude (m1 + 8388608) (-23)
                (fexp 24 128 (digits (p + 1) + 23 + -23)))
      as (m2 & -> & _ & Hm2).
    assert (Hmin : Z.min (-23) (fexp 24 128 (digits (p + 1) + 23 + -23)) = -23)
      by (unfold fexp, emin; lia).
    rewrite Hmin in *. rewrite Z.sub_diag, Z.pow_0_r, Z.mul_1_r in Hm2.
    injection Hm2 as ->.
    assert (Hpos : 0 < Z.pos (p + 1) * 2 ^ (24 - digits (p + 1)))
      by (apply Z.mul_pos_pos; [lia|apply Z.pow_pos_nonneg; lia]).
    destruct (Z.pos (p + 1) * 2 ^ (24 - digits (p + 1))) as [|r|r] eqn:Er;
      [lia| |lia].
    exists r, (-23 + (digits (p + 1) - 1)). split; [|split].
    + apply binary_round_aux_exact; [lia| | |lia].
      * rewrite Hsum, <- Er, <- Z.mul_assoc, <- Z.pow_add_r by lia.
        f_equal. f_equal. lia.
      * rewrite Hds. unfold fexp, emin. lia.
    + rewrite (digits_scaled r (p + 1) (24 - digits (p + 1))); [lia|lia|].
      now rewrite <- Er.
    + rewrite <- Er, F2Q_scale by lia.
      replace (-23 + (digits (p + 1) - 1) + (24 - digits (p + 1))) with 0
        by lia.
      unfold F2Q. rewrite Pos2Z.inj_add, inject_Z_plus.
      change (2 ^ 0)%Q with 1%Q. change (inject_Z 1) with 1%Q. ring.
Qed.

(** ** Slot positions *)





(** The slot formula in numbers: with [u] the spacing [sy / (count + 1)],
    two roundings of relative error [eps] on the offset and one on the sum
    move the result by less than [u / 2], when the node is within
    [2^20 * u] of the origin. *)
Lemma slot_error_budget (P S A D u X q0 T y : Q) :
  (0 < u)%Q -> (u * D == S)%Q -> (1 <= A)%Q -> (A <= D - 1)%Q ->
  (S - P <= 1048576 * u)%Q -> (S + P <= 1048576 * u)%Q ->
  ((1 - eps) * (S * A) <= X)%Q -> (X <= (1 + eps) * (S * A))%Q ->
  (q0 * D == X)%Q ->
  ((1 - eps) * q0 <= T)%Q -> (T <= (1 + eps) * q0)%Q ->
  (0 <= P + T -> (1 - eps) * (P + T) <= y /\ y <= (1 + eps) * (P + T))%Q ->
  (P + T <= 0 -> (1 + eps) * (P + T) <= y /\ y <= (1 - eps) * (P + T))%Q ->
  (P + A * u - u / 2 < y)%Q /\ (y < P + A * u + u / 2)%Q.
Proof.
  intros Hu HS HA1 HA2 HP1 HP2 HX1 HX2 Hq HT1 HT2 Hy1 Hy2.
  assert (HD : (2 <= D)%Q) by lra.
  set (g := (A * u)%Q).
  assert (Hg1 : (u <= g)%Q) by (subst g; nra).
  assert (Hg2 : (g <= S - u)%Q) by (subst g; nra).
  assert (Hq1 : ((1 - eps) * g <= q0)%Q).
  { apply (Qmult_cancel_le _ _ D); [lra|]. rewrite Hq.
    assert (E : ((1 - eps) * g * D == (1 - eps) * (S * A))%Q)
      by (subst g; rewrite <- HS; ring).
    now rewrite E. }
  assert (Hq2 : (q0 <= (1 + eps) * g)%Q).
  { apply (Qmult_cancel_le _ _ D); [lra|]. rewrite Hq.
    assert (E : ((1 + eps) * g * D == (1 + eps) * (S * A))%Q)
      by (subst g; rewrite <- HS; ring).
    now rewrite E. }
  fold g. clearbody g.
  assert (Hh : (u / 2 == u * (1 # 2))%Q) by field.
  unfold eps in *.
  destruct (Qlt_le_dec (P + T) 0) as [Hneg|Hpos].
  - destruct (Hy2 ltac:(lra)) as [Y1 Y2]. split; lra.
  - destruct (Hy1 Hpos) as [Y1 Y2]. split; lra.
Qed.

Ltac qnum t := let c := eval vm_compute in t in change t with c in *.

Lemma positive_float_shape (f : float) (v : Q) :
  float_value f = Some v -> (0 < v)%Q ->
  exists m e, f = S754_finite false m e /\ (v == F2Q (Z.pos m) e)%Q.
Proof.
  intros Hf Hv. destruct f as [s|s| |s m e]; try discriminate.
  - injection Hf as <-. lra.
  - destruct (float_value_F2Q s m e) as (v' & Hf' & Hv').
    rewrite Hf in Hf'. injection Hf' as <-.
    assert (0 < F2Q (Z.pos m) e)%Q.
    { unfold F2Q. pose proof (pow2_pos e).
      assert (0 < inject_Z (Z.pos m))%Q by (rewrite <- (Zlt_Qlt 0); lia).
      nra. }
    destruct s; simpl cond_Zopp in Hv'.
    + change (Z.neg m) with (- Z.pos m) in Hv'. rewrite F2Q_opp in Hv'. lra.
    + exists m, e. split; [reflexivity|exact Hv'].
Qed.

(** In ordinary range every slot is computed within half a spacing of the
    place the formula denotes. *)
Lemma slot_y_near (pos_y size_y : float) (slot_no count : Z) (py sy : Q) :
  float_value pos_y = Some py -> float_value size_y = Some sy ->
  valid_binary 24 128 pos_y = true ->
  0 <= slot_no < count ->
  (2 ^ (-100) <= sy /\ sy <= 2 ^ 100
   /\ (inject_Z count + 1) * (sy - py) <= 2 ^ 20 * sy
   /\ (inject_Z count + 1) * (sy + py) <= 2 ^ 20 * sy)%Q ->
  exists yv,
    float_value (slot_y pos_y size_y slot_no count) = Some yv
    /\ (slot_ideal_y py sy slot_no count - slot_spacing sy count / 2 < yv)%Q
    /\ (yv < slot_ideal_y py sy slot_no count + slot_spacing sy count / 2)%Q.
Proof.
  intros Hpy Hsy Hvalid Hs (Hlo & Hhi & Hr1 & Hr2).
  unfold slot_ideal_y, slot_spacing.
  qnum (2 ^ (-100))%Q. qnum (2 ^ 100)%Q. qnum (2 ^ 20)%Q.
  set (A := (inject_Z slot_no + 1)%Q). set (D := (inject_Z count + 1)%Q) in *.
  assert (Hsy0 : (0 < sy)%Q) by lra.
  assert (HA1 : (1 <= A)%Q).
  { subst A. assert (0 <= inject_Z slot_no)%Q by (rewrite <- (Zle_Qle 0); lia).
    lra. }
  assert (HA2 : (A <= D - 1)%Q).
  { subst A D. assert (inject_Z (slot_no + 1) <= inject_Z count)%Q
      by (rewrite <- Zle_Qle; lia).
    rewrite inject_Z_plus in H. change (inject_Z 1) with 1%Q in H. lra. }
  assert (HD20 : (D <= 1048576)%Q).
  { apply (Qmult_cancel_le _ _ sy Hsy0). lra. }
  assert (Hc : count < 2 ^ 24 - 1).
  { assert (H : (inject_Z count <= inject_Z 1048575)%Q).
    { subst D. change (inject_Z 1048575) with (1048575 # 1)%Q. lra. }
    rewrite <- Zle_Qle in H. lia. }
  unfold slot_y.
  destruct (fadd_one_shape slot_no) as (ma & ea & -> & Hda & Hva); [lia|].
  destruct (fadd_one_shape count) as (md & ed & -> & Hdd & Hvd); [lia|].
  fold A in Hva. fold D in Hvd.
  destruct (positive_float_shape size_y sy Hsy Hsy0) as (ms & es & -> & Hvs).
  assert (Hw1 : (sy <= sy * A)%Q) by nra.
  assert (Hw2 : (sy * A <= sy * 1048576)%Q) by nra.
  destruct (fmul_error ms ma es ea (sy * A)%Q) as (mX & eX & -> & _ & HX1 & HX2).
  { lia. }
  { now rewrite Hvs, Hva. }
  { qnum (2 ^ (-126))%Q. lra. }
  { qnum (2 ^ 127)%Q. lra. }
  set (X := F2Q (Z.pos mX) eX) in *.
  set (q0 := (X / D)%Q).
  assert (Hq : (q0 * D == X)%Q) by (subst q0; field; lra).
  unfold eps in HX1, HX2.
  assert (Hq0 : (0 < q0)%Q).
  { apply (Qmult_cancel_lt _ _ D); [lra|]. rewrite Hq. lra. }
  assert (Hq1 : (q0 <= X)%Q) by (rewrite <- Hq; nra).
  destruct (fdiv_error mX md eX ed q0) as (mt & et & -> & Het & HT1 & HT2).
  { exact Hdd. }
  { now rewrite Hvd. }
  { qnum (2 ^ (-124))%Q. apply (Qmult_cancel_le _ _ D); [lra|].
    rewrite Hq. lra. }
  { qnum (2 ^ 127)%Q. lra. }
  set (T := F2Q (Z.pos mt) et) in *.
  set (u := (sy / D)%Q).
  assert (Hu : (u * D == sy)%Q) by (subst u; field; lra).
  assert (Hu0 : (0 < u)%Q).
  { apply (Qmult_cancel_lt _ _ D); [lra|]. rewrite Hu. lra. }
  assert (Hu1 : (u <= sy)%Q) by (rewrite <- Hu; nra).
  assert (HP1 : (sy - py <= 1048576 * u)%Q).
  { apply (Qmult_cancel_le _ _ D); [lra|].
    assert (E : (1048576 * u * D == 1048576 * sy)%Q) by (rewrite <- Hu; ring).
    rewrite E. lra. }
  assert (HP2 : (sy + py <= 1048576 * u)%Q).
  { apply (Qmult_cancel_le _ _ D); [lra|].
    assert (E : (1048576 * u * D == 1048576 * sy)%Q) by (rewrite <- Hu; ring).
    rewrite E. lra. }
  unfold eps in HT1, HT2.
  destruct (fadd_error pos_y mt et py Hpy Hvalid Het) as (yv & Hyv & Hy1 & Hy2).
  { fold T. qnum (2 ^ 127)%Q. lra. }
  { fold T. qnum (2 ^ 127)%Q. lra. }
  fold T in Hy1, Hy2.
  exists yv. split; [exact Hyv|].
  apply (slot_error_budget py sy A D u X q0 T yv); unfold eps;
    try assumption; try lra.
Qed.

(** So in ordinary range a slot lies strictly inside the node. *)
Lemma slot_y_ordinary (pos_y size_y : float) (slot_no count : Z) :
  0 <= slot_no < count -> ordinary_range pos_y size_y count ->
  strictly_inside pos_y size_y (slot_y pos_y size_y slot_no count)
  /\ within_half_spacing pos_y size_y slot_no count
       (slot_y pos_y size_y slot_no count).
Proof.
  intros Hs [Hvalid Hr]. unfold strictly_inside, within_half_spacing.
  destruct (float_value pos_y) as [py|] eqn:Hpy; [|contradiction].
  destruct (float_value size_y) as [sy|] eqn:Hsy; [|contradiction].
  destruct (slot_y_near pos_y size_y slot_no count py sy Hpy Hsy Hvalid Hs Hr)
    as (yv & -> & Hlo & Hhi).
  split; [|split; assumption].
  destruct Hr as (Hr0 & _ & _ & _).
  unfold slot_ideal_y, slot_spacing in *.
  qnum (2 ^ (-100))%Q.
  set (A := (inject_Z slot_no + 1)%Q) in *.
  set (D := (inject_Z count + 1)%Q) in *.
  assert (HA1 : (1 <= A)%Q).
  { subst A. assert (0 <= inject_Z slot_no)%Q by (rewrite <- (Zle_Qle 0); lia).
    lra. }
  assert (HA2 : (A <= D - 1)%Q).
  { subst A D. assert (inject_Z (slot_no + 1) <= inject_Z count)%Q
      by (rewrite <- Zle_Qle; lia).
    rewrite inject_Z_plus in H. change (inject_Z 1) with 1%Q in H. lra. }
  set (u := (sy / D)%Q) in *.
  assert (Hu : (u * D == sy)%Q) by (subst u; field; lra).
  assert (Hu0 : (0 < u)%Q).
  { apply (Qmult_cancel_lt _ _ D); [lra|]. rewrite Hu. lra. }
  assert (Hh : (u / 2 == u * (1 # 2))%Q) by field.
  assert (Hg1 : (u <= A * u)%Q) by nra.
  assert (Hg2 : (A * u <= sy - u)%Q) by nra.
  split; lra.
Qed.



(** * Further properties of the code *)

(** ** The constructor and [Create] *)

Section ConstructorMore.
Context `{R : Renderer}.

Lemma enabled_descs_keys (f : Layers -> bool) (ks : list Layers) :
  fst <$> mjoin ((fun k => if f k then [desc_of k] else []) <$> ks)
  = filter (fun k => f k = true) ks.
Proof.
  induction ks as [|k ks IH]; [reflexivity|].
  unfold LayerDesc in *. rewrite fmap_cons.
  change (mjoin (?l :: ?ls)) with (l ++ mjoin ls).
  rewrite fmap_app, IH, filter_cons.
  destruct (f k) eqn:E; simpl.
  - rewrite desc_of_fst. destruct (decide (true = true)); [reflexivity|].
    congruence.
  - destruct (decide (false = true)); [discriminate|reflexivity].
Qed.

(** X1.  [m_layers] follows the order in which the constructor tests the
    flags (emission, transparency, coating, reflection, diffuse, refraction,
    SSS, shading normal), not the order of the table. *)
Theorem ctor_layers_in_test_order (material : Material) :
  (forall a b, to_u32 (layer_value a) = to_u32 (layer_value b) -> a = b) ->
  exists e,
    MaterialExplorer_ctor material = Some e
    /\ fst <$> m_layers e
       = filter (fun k => layer_enabled (GetLayers material) k = true)
                [ kEmissionLayer; kTransparencyLayer; kCoatingLayer;
                  kReflectionLayer; kDiffuseLayer; kRefractionLayer;
                  kSSSLayer; kShadingNormalLayer ].
Proof.
  intros Hinj. eexists. split; [apply (ctor_enabled_descs material Hinj)|].
  simpl. apply (enabled_descs_keys (layer_enabled (GetLayers material))).
Qed.

Lemma collect_shape (layers : Z) (k : Layers) (acc l : list LayerDesc) :
  collect GetUberLayersDesc layers k acc = Some l ->
  l = acc \/ exists d, d ∈ GetUberLayersDesc /\ l = acc ++ [d].
Proof.
  unfold collect. destruct (layer_enabled layers k).
  - destruct (find_layer_found k) as (d & -> & Hin & _). simpl.
    intros [= <-]. right. eauto.
  - intros [= <-]. now left.
Qed.

Lemma collect_from_table (layers : Z) (k : Layers) (acc l : list LayerDesc)
    (n : nat) :
  Forall (fun d => d ∈ GetUberLayersDesc) acc -> (length acc <= n)%nat ->
  collect GetUberLayersDesc layers k acc = Some l ->
  Forall (fun d => d ∈ GetUberLayersDesc) l /\ (length l <= S n)%nat.
Proof.
  intros Hacc Hlen Hc.
  destruct (collect_shape layers k acc l Hc) as [->|(d & Hd & ->)].
  - split; [exact Hacc | lia].
  - split.
    + apply Forall_app. split; [exact Hacc|]. now constructor.
    + rewrite length_app. simpl. lia.
Qed.

(** Whatever the enumerator values, the constructor collects at most eight
    descriptors, all of them entries of the table. *)
Lemma ctor_layers_from_table (material : Material) (e : MaterialExplorer) :
  MaterialExplorer_ctor material = Some e ->
  Forall (fun d => d ∈ GetUberLayersDesc) (m_layers e)
  /\ (length (m_layers e) <= 8)%nat
  /\ m_material e = material
  /\ m_graph e = None /\ m_selected_input e = "".
Proof.
  unfold MaterialExplorer_ctor. intros H.
  assert (H0 : Forall (fun d => d ∈ GetUberLayersDesc) (@nil LayerDesc)
               /\ (length (@nil LayerDesc) <= 0)%nat)
    by (split; [constructor | simpl; lia]).
  repeat match type of H with
  | context [collect ?ds ?ls ?k ?acc] =>
      let l := fresh "l" in
      let E := fresh "E" in
      destruct (collect ds ls k acc) as [l|] eqn:E; simpl in H;
        [|discriminate];
      match goal with
      | Hacc : Forall _ acc /\ _ |- _ =>
          let Hl := fresh "Hl" in
          pose proof (collect_from_table _ _ _ _ _ (proj1 Hacc) (proj2 Hacc) E)
            as Hl
      end
  end.
  injection H as <-. simpl.
  repeat split; tauto.
Qed.

Lemma table_entries_short (d : LayerDesc) :
  d ∈ GetUberLayersDesc -> (length (snd d) <= 6)%nat.
Proof.
  intros Hd. apply list_elem_of_In in Hd. simpl in Hd.
  repeat destruct Hd as [<-|Hd]; simpl; try lia; try contradiction.
Qed.

Lemma listed_inputs_length (layers : list LayerDesc) :
  Forall (fun d => d ∈ GetUberLayersDesc) layers ->
  (length (listed_inputs layers) <= 6 * length layers)%nat.
Proof.
  induction 1 as [|d layers Hd _ IH]; [simpl; lia|].
  change (listed_inputs (d :: layers)) with (snd d ++ listed_inputs layers).
  rewrite length_app. pose proof (table_entries_short d Hd). simpl length. lia.
Qed.

Lemma ctor_listed_bound (material : Material) (e : MaterialExplorer) :
  MaterialExplorer_ctor material = Some e ->
  (length (listed_inputs (m_layers e)) <= 48)%nat.
Proof.
  intros H. destruct (ctor_layers_from_table material e H) as (Hf & Hl & _).
  pose proof (listed_inputs_length _ Hf). lia.
Qed.

Lemma Create_is_ctor (material : Material) :
  MaterialExplorer_Create material = MaterialExplorer_ctor material.
Proof.
  unfold MaterialExplorer_Create.
  destruct (MaterialExplorer_ctor material) as [[m ls g sel]|]; reflexivity.
Qed.

End ConstructorMore.

(** ** More on the layers list *)

Section LayersListMore.
Context `{R : Renderer}.
Variable ui : ImGuiFrame.

(** The name the loop holds is empty or one of the names shown so far. *)
Lemma list_input_named (names : list string) (v : ListVars) (input : string) :
  input_name v = "" \/ input_name v ∈ names ->
  input_name (list_input ui v input) = ""
  \/ input_name (list_input ui v input) ∈ names ++ [input].
Proof.
  intros Hv. unfold list_input. simpl.
  destruct (Selectable ui (length (calls v))).
  - right. apply elem_of_app. right. now apply list_elem_of_singleton.
  - destruct Hv as [Hv|Hv]; [now left|].
    right. apply elem_of_app. now left.
Qed.

Lemma list_inputs_named (inputs names : list string) (v : ListVars) :
  input_name v = "" \/ input_name v ∈ names ->
  input_name (fold_left (list_input ui) inputs v) = ""
  \/ input_name (fold_left (list_input ui) inputs v) ∈ names ++ inputs.
Proof.
  revert names v. induction inputs as [|input inputs IH]; intros names v Hv.
  - now rewrite app_nil_r.
  - simpl. replace (names ++ input :: inputs)
      with ((names ++ [input]) ++ inputs) by now rewrite <- app_assoc.
    apply IH. now apply list_input_named.
Qed.

Lemma list_layers_named (layers : list LayerDesc) (names : list string)
    (v : ListVars) :
  input_name v = "" \/ input_name v ∈ names ->
  input_name (fold_left (list_layer ui) layers v) = ""
  \/ input_name (fold_left (list_layer ui) layers v)
     ∈ names ++ listed_inputs layers.
Proof.
  revert names v. induction layers as [|layer layers IH]; intros names v Hv.
  - unfold listed_inputs. simpl. now rewrite app_nil_r.
  - simpl. unfold listed_inputs in *. simpl. rewrite app_assoc.
    apply IH. now apply list_inputs_named.
Qed.

Lemma layers_list_named (layers : list LayerDesc) (sel : Z) :
  input_name (layers_list ui layers sel) = ""
  \/ input_name (layers_list ui layers sel) ∈ listed_inputs layers.
Proof. apply (list_layers_named layers []). now left. Qed.

(** What the loop picks up does not depend on [input_selected]. *)
Lemma list_input_same_pick (v v' : ListVars) (input : string) :
  length (calls v) = length (calls v') /\ input_name v = input_name v' ->
  length (calls (list_input ui v input))
  = length (calls (list_input ui v' input))
  /\ input_name (list_input ui v input) = input_name (list_input ui v' input).
Proof.
  intros [Hl Hn]. unfold list_input. simpl.
  rewrite !length_app, Hl, Hn. split; reflexivity.
Qed.

Lemma list_inputs_same_pick (inputs : list string) (v v' : ListVars) :
  length (calls v) = length (calls v') /\ input_name v = input_name v' ->
  length (calls (fold_left (list_input ui) inputs v))
  = length (calls (fold_left (list_input ui) inputs v'))
  /\ input_name (fold_left (list_input ui) inputs v)
     = input_name (fold_left (list_input ui) inputs v').
Proof.
  revert v v'. induction inputs as [|input inputs IH]; intros v v' Hv.
  - exact Hv.
  - simpl. apply IH. now apply list_input_same_pick.
Qed.

Lemma list_layers_same_pick (layers : list LayerDesc) (v v' : ListVars) :
  length (calls v) = length (calls v') /\ input_name v = input_name v' ->
  length (calls (fold_left (list_layer ui) layers v))
  = length (calls (fold_left (list_layer ui) layers v'))
  /\ input_name (fold_left (list_layer ui) layers v)
     = input_name (fold_left (list_layer ui) layers v').
Proof.
  revert v v'. induction layers as [|layer layers IH]; intros v v' Hv.
  - exact Hv.
  - simpl. apply IH. now apply list_inputs_same_pick.
Qed.

Lemma layers_list_same_pick (layers : list LayerDesc) (sel sel' : Z) :
  input_name (layers_list ui layers sel)
  = input_name (layers_list ui layers sel').
Proof.
  unfold layers_list. apply list_layers_same_pick. split; reflexivity.
Qed.

(** Without a click every call is made with the flag
    [selected_id == input_selected] for the value [input_selected] had
    when the frame began. *)
Lemma list_inputs_flags (sel : Z) (inputs : list string) (v : ListVars) :
  no_click ui ->
  list_input_selected v = sel
  /\ Forall (fun c => selected c = (index c =? sel)) (calls v) ->
  list_input_selected (fold_left (list_input ui) inputs v) = sel
  /\ Forall (fun c => selected c = (index c =? sel))
            (calls (fold_left (list_input ui) inputs v)).
Proof.
  intros Hq. revert v. induction inputs as [|input inputs IH]; intros v Hv.
  - exact Hv.
  - simpl. apply IH. destruct Hv as [Hs Hf]. unfold list_input. simpl.
    rewrite Hq. split; [exact Hs|].
    apply Forall_app. split; [exact Hf|].
    constructor; [|constructor]. simpl. now rewrite Hs.
Qed.

Lemma list_layers_flags (sel : Z) (layers : list LayerDesc) (v : ListVars) :
  no_click ui ->
  list_input_selected v = sel
  /\ Forall (fun c => selected c = (index c =? sel)) (calls v) ->
  list_input_selected (fold_left (list_layer ui) layers v) = sel
  /\ Forall (fun c => selected c = (index c =? sel))
            (calls (fold_left (list_layer ui) layers v)).
Proof.
  intros Hq. revert v. induction layers as [|layer layers IH]; intros v Hv.
  - exact Hv.
  - simpl. apply IH. now apply list_inputs_flags.
Qed.

Lemma layers_list_flags (layers : list LayerDesc) (sel : Z) :
  no_click ui ->
  Forall (fun c => selected c = (index c =? sel))
         (calls (layers_list ui layers sel)).
Proof.
  intros Hq. unfold layers_list.
  apply (list_layers_flags sel layers); [exact Hq|].
  split; [reflexivity|constructor].
Qed.

End LayersListMore.

(** ** More on frames *)

Section FrameMore.
Context `{R : Renderer}.
Variable win_size : ImVec2.t.

Lemma frame_fields (ui : ImGuiFrame) (s : State) :
  m_material (this (fst (DrawExplorer win_size ui s))) = m_material (this s)
  /\ m_layers (this (fst (DrawExplorer win_size ui s))) = m_layers (this s).
Proof.
  destruct (DrawExplorer_parts win_size ui s) as (-> & _).
  apply select_input_fields.
Qed.

Lemma frames_fields (uis : list ImGuiFrame) (s : State) :
  m_material (this (frames win_size uis s)) = m_material (this s)
  /\ m_layers (this (frames win_size uis s)) = m_layers (this s).
Proof.
  unfold frames. revert s. induction uis as [|ui uis IH]; intros s.
  - split; reflexivity.
  - simpl. destruct (IH (fst (DrawExplorer win_size ui s))) as [-> ->].
    apply frame_fields.
Qed.

Lemma DrawExplorer_statics (ui : ImGuiFrame) (s : State) :
  show_grid (fst (DrawExplorer win_size ui s))
  = (if Checkbox ui then negb (show_grid s) else show_grid s)
  /\ scrolling (fst (DrawExplorer win_size ui s))
     = (if IsWindowHovered ui && negb (IsAnyItemActive ui)
           && IsMouseDragging ui 2
        then ImVec2_add (scrolling s) (MouseDelta ui)
        else scrolling s).
Proof.
  unfold DrawExplorer.
  destruct (select_input _ (this s) (co_owned s) (heap s)) as [e h].
  destruct (display_nodes ui (m_graph e) h) as [h' log].
  split; reflexivity.
Qed.

(** The two ways lines 137-143 can go. *)
Lemma select_input_cases (name : string) (e : MaterialExplorer)
    (co : gset loc) (h : gmap loc GraphScheme) :
  (name <> "" /\ m_selected_input e <> name
   /\ m_graph (fst (select_input name e co h))
      = Some (fresh (dom h ∪ held (m_graph e)))
   /\ m_selected_input (fst (select_input name e co h)) = name
   /\ is_Some (snd (select_input name e co h)
                 !! fresh (dom h ∪ held (m_graph e))))
  \/ ((name = "" \/ name = m_selected_input e)
      /\ select_input name e co h = (e, h)).
Proof.
  destruct (String.eqb_spec name "") as [Hn|Hn].
  { right. split; [now left|]. apply select_input_same. now left. }
  destruct (String.eqb_spec (m_selected_input e) name) as [Hs|Hs].
  { right. split; [now right|]. apply select_input_same. now right. }
  left. rewrite (select_input_created name e co h Hn Hs).
  rewrite (select_input_change name e co h Hn Hs). simpl.
  repeat split; try assumption. eauto.
Qed.

Lemma display_nodes_no_drag (ui : ImGuiFrame) (p : option loc)
    (h : gmap loc GraphScheme) :
  IsMouseDragging ui 0 = false -> display_nodes ui p h = (h, []).
Proof.
  intros Hd. destruct p as [l|]; [|reflexivity]. simpl.
  destruct (h !! l) as [g|] eqn:E; [|reflexivity].
  rewrite drag_fold, drag_calls_none.
  - simpl. f_equal. now apply insert_id.
  - intros j _. rewrite Hd. apply andb_false_r.
Qed.

Lemma display_nodes_null (ui : ImGuiFrame) (h : gmap loc GraphScheme) :
  display_nodes ui None h = (h, []).
Proof. reflexivity. Qed.

Lemma frame_graph_in_store (ui : ImGuiFrame) (s : State) :
  graph_in_store s -> graph_in_store (fst (DrawExplorer win_size ui s)).
Proof.
  intros Hs l. destruct (DrawExplorer_parts win_size ui s) as (-> & -> & _).
  intros Hl. apply elem_of_dom. rewrite display_nodes_dom.
  destruct (select_input_cases (clicked_input ui s) (this s) (co_owned s)
              (heap s)) as [(_ & _ & Hg & _ & Hin)|(_ & E)].
  - rewrite Hg in Hl. injection Hl as <-. now apply elem_of_dom.
  - rewrite E in *. simpl in *. apply elem_of_dom. now apply Hs.
Qed.

Lemma frame_selection_consistent (ui : ImGuiFrame) (s : State) :
  selection_consistent s ->
  selection_consistent (fst (DrawExplorer win_size ui s)).
Proof.
  intros Hs. unfold selection_consistent.
  destruct (frame_fields ui s) as [_ ->].
  destruct (DrawExplorer_parts win_size ui s) as (-> & _).
  destruct (select_input_cases (clicked_input ui s) (this s) (co_owned s) (heap s))
    as [(Hn & _ & Hg & Hsel & _)|(_ & E)].
  - rewrite Hg, Hsel. split; [split; [discriminate|contradiction]|].
    right. unfold clicked_input in *.
    destruct (layers_list_named ui (m_layers (this s)) (input_selected s));
      [contradiction|assumption].
  - rewrite E. exact Hs.
Qed.

Lemma frames_invariant (P : State -> Prop) :
  (forall ui s, P s -> P (fst (DrawExplorer win_size ui s))) ->
  forall uis s, P s -> P (frames win_size uis s).
Proof.
  intros Hstep uis. unfold frames.
  induction uis as [|ui uis IH]; intros s Hs; [exact Hs|].
  simpl. apply IH, Hstep, Hs.
Qed.

(** X6.  If [m_graph] points into the store before a run of frames, it
    does so after it: the graph objects a selection change releases are
    never the one the explorer goes on to hold. *)
Theorem graph_pointer_stays_valid (uis : list ImGuiFrame) (s : State) :
  graph_in_store s -> graph_in_store (frames win_size uis s).
Proof. apply frames_invariant. intros ui s'. apply frame_graph_in_store. Qed.

(** X7.  In every state reached from a constructed explorer, a graph is
    held exactly when an input is selected, the selected input is one of
    the names in the layers list, and the graph pointer is valid. *)
Theorem constructed_selection_consistent (material : Material)
    (e : MaterialExplorer) (uis : list ImGuiFrame) (s : State) :
  MaterialExplorer_Create material = Some e ->
  this s = e ->
  selection_consistent (frames win_size uis s)
  /\ graph_in_store (frames win_size uis s).
Proof.
  rewrite Create_is_ctor. intros Hc He.
  destruct (ctor_layers_from_table material e Hc) as (_ & _ & _ & Hg & Hsel).
  split.
  - apply frames_invariant; [intros ui s'; apply frame_selection_consistent|].
    unfold selection_consistent. rewrite He, Hg, Hsel.
    split; [tauto | now left].
  - apply frames_invariant; [intros ui s'; apply frame_graph_in_store|].
    intros l. rewrite He, Hg. discriminate.
Qed.

(** X3.  For an explorer made by the constructor, in any frame after any
    run of frames, the layers list shows the input names of [m_layers] with
    the indices 0, 1, 2, ...: the [int] counter cannot overflow, since the
    constructor collects at most eight table entries of at most six names
    each. *)
Theorem constructed_list_indices (material : Material)
    (e : MaterialExplorer) (uis : list ImGuiFrame) (ui : ImGuiFrame)
    (s : State) :
  MaterialExplorer_ctor material = Some e ->
  this s = e ->
  let log :=
    selectable_calls (snd (DrawExplorer win_size ui (frames win_size uis s)))
  in
  label <$> log = listed_inputs (m_layers e)
  /\ index <$> log = Z.of_nat <$> seq 0 (length (listed_inputs (m_layers e))).
Proof.
  intros Hc He log. subst log.
  pose proof (ctor_listed_bound material e Hc) as Hb.
  destruct (DrawExplorer_parts win_size ui (frames win_size uis s))
    as (_ & _ & _ & -> & _).
  destruct (frames_fields uis s) as [_ ->]. rewrite He.
  destruct (layers_list_listed ui (m_layers e)
              (input_selected (frames win_size uis s))) as (Hl & Hi & _).
  split; [exact Hl|]. rewrite Hi.
  apply list_fmap_ext. intros i k Hk.
  apply lookup_seq in Hk as [-> Hk]. simpl.
  apply wrap_int_small. lia.
Qed.

(** X4.  When several entries report a click in one frame the last one
    wins: its name is the clicked input, [input_selected] becomes its
    index, and it is the selected input when the frame ends. *)
Theorem last_click_selects (ui : ImGuiFrame) (s : State) (k : nat)
    (name : string) :
  listed_inputs (m_layers (this s)) !! k = Some name ->
  Selectable ui k = true ->
  (forall j, (k < j < length (listed_inputs (m_layers (this s))))%nat ->
             Selectable ui j = false) ->
  Z.of_nat (length (listed_inputs (m_layers (this s)))) < 2 ^ 31 ->
  name <> "" ->
  clicked_input ui s = name
  /\ input_selected (fst (DrawExplorer win_size ui s)) = Z.of_nat k
  /\ m_selected_input (this (fst (DrawExplorer win_size ui s))) = name.
Proof.
  intros Hk Hc Hlater Hlen Hne.
  destruct (layers_list_picked ui (m_layers (this s)) (input_selected s)
              k name Hk Hc Hlater) as [Hname Hsel].
  destruct (DrawExplorer_parts win_size ui s) as (-> & _ & -> & _).
  unfold clicked_input. rewrite Hname, Hsel.
  split; [reflexivity|]. split.
  - apply wrap_int_small. apply lookup_lt_Some in Hk. lia.
  - destruct (select_input_cases name (this s) (co_owned s) (heap s))
      as [(_ & _ & _ & Hs & _)|([He|He] & E)].
    + exact Hs.
    + contradiction.
    + rewrite E. simpl. now symmetry.
Qed.

(** X5.  In a frame without a click, the entry drawn as selected is the
    one whose index is [input_selected]: the [k]-th [Selectable] call gets
    the flag [k == input_selected], and [input_selected] keeps its value. *)
Theorem highlighted_entry (ui : ImGuiFrame) (s : State) (k : nat)
    (c : SelectableCall) :
  no_click ui ->
  Z.of_nat (length (listed_inputs (m_layers (this s)))) < 2 ^ 31 ->
  selectable_calls (snd (DrawExplorer win_size ui s)) !! k = Some c ->
  selected c = (Z.of_nat k =? input_selected s)
  /\ input_selected (fst (DrawExplorer win_size ui s)) = input_selected s.
Proof.
  intros Hq Hlen Hk.
  destruct (DrawExplorer_parts win_size ui s) as (_ & _ & -> & Hc & _).
  rewrite Hc in Hk. clear Hc.
  destruct (layers_list_quiet ui (m_layers (this s)) (input_selected s) Hq)
    as [_ ->].
  split; [|reflexivity].
  pose proof (layers_list_flags ui (m_layers (this s)) (input_selected s) Hq)
    as Hf.
  rewrite Forall_lookup in Hf. rewrite (Hf k c Hk). f_equal.
  destruct (layers_list_listed ui (m_layers (this s)) (input_selected s))
    as (Hl & Hi & _).
  assert (Hki : (index <$> calls (layers_list ui (m_layers (this s))
                                    (input_selected s))) !! k
                = Some (index c))
    by (rewrite list_lookup_fmap, Hk; reflexivity).
  rewrite Hi, list_lookup_fmap in Hki.
  destruct (seq 0 (length (listed_inputs (m_layers (this s)))) !! k)
    as [i|] eqn:Ei; [|discriminate].
  apply lookup_seq in Ei as [-> Ei]. simpl in Hki. injection Hki as <-.
  apply wrap_int_small. lia.
Qed.

(** X8.  Clicking the same input in two frames in a row builds the graph
    once: whatever else the two frames bring, the second leaves [m_graph]
    and [m_selected_input] as the first left them, and creates and releases
    no graph object. *)
Theorem same_click_twice (ui1 ui2 : ImGuiFrame) (s : State) :
  clicked_input ui1 s <> "" ->
  clicked_input ui2 (fst (DrawExplorer win_size ui1 s)) = clicked_input ui1 s ->
  let s1 := fst (DrawExplorer win_size ui1 s) in
  let s2 := fst (DrawExplorer win_size ui2 s1) in
  m_selected_input (this s1) = clicked_input ui1 s
  /\ this s2 = this s1
  /\ dom (heap s2) = dom (heap s1).
Proof.
  intros Hne Hclick s1 s2. fold s1 in Hclick.
  assert (Hsel : m_selected_input (this s1) = clicked_input ui1 s).
  { subst s1. destruct (DrawExplorer_parts win_size ui1 s) as (-> & _).
    destruct (select_input_cases (clicked_input ui1 s) (this s) (co_owned s)
                (heap s)) as [(_ & _ & _ & Hs & _)|([He|He] & E)].
    - exact Hs.
    - contradiction.
    - rewrite E. simpl. now symmetry. }
  split; [exact Hsel|].
  subst s2. destruct (DrawExplorer_parts win_size ui2 s1) as (-> & -> & _).
  rewrite (select_input_same (clicked_input ui2 s1) (this s1) (co_owned s1)
             (heap s1)) by (right; congruence).
  simpl. split; [reflexivity|]. apply display_nodes_dom.
Qed.

(** The clicked input depends on the frame's answers and on [m_layers]
    only, so it can be read off the state before the first of two frames. *)
Lemma clicked_input_next (ui1 ui2 : ImGuiFrame) (s : State) :
  clicked_input ui2 (fst (DrawExplorer win_size ui1 s)) = clicked_input ui2 s.
Proof.
  unfold clicked_input. destruct (frame_fields ui1 s) as [_ ->].
  apply layers_list_same_pick.
Qed.

(** X9.  A frame in which nothing is clicked, the grid box is not toggled
    and neither the left nor the middle button drags leaves the explorer,
    the statics and the store exactly as they were. *)
Theorem idle_frame_is_identity (ui : ImGuiFrame) (s : State) :
  no_click ui -> Checkbox ui = false ->
  IsMouseDragging ui 0 = false -> IsMouseDragging ui 2 = false ->
  fst (DrawExplorer win_size ui s) = s.
Proof.
  intros Hq Hc H0 H2.
  destruct (layers_list_quiet ui (m_layers (this s)) (input_selected s) Hq)
    as [Hname Hsel].
  unfold DrawExplorer. rewrite Hname, Hsel, Hc, H2, andb_false_r.
  rewrite (select_input_same "" (this s) (co_owned s) (heap s)) by now left.
  rewrite (display_nodes_no_drag ui _ _ H0). simpl.
  destruct s; reflexivity.
Qed.

(** X10.  Without a left-button drag a frame moves no node: it makes no
    [UpdateNodePos] call, and every graph object of the store is the same
    after the frame, but for the graph a selection change replaces, which
    is destroyed when the explorer was its only owner. *)
Theorem no_drag_no_move (ui : ImGuiFrame) (s : State) :
  IsMouseDragging ui 0 = false ->
  let s' := fst (DrawExplorer win_size ui s) in
  update_calls (snd (DrawExplorer win_size ui s)) = []
  /\ forall l g,
       heap s !! l = Some g ->
       heap s' !! l = Some g
       \/ (heap s' !! l = None
           /\ m_graph (this s) = Some l /\ m_graph (this s') <> Some l
           /\ l ∉ co_owned s).
Proof.
  intros H0 s'. subst s'.
  destruct (DrawExplorer_parts win_size ui s) as (-> & -> & _ & _ & ->).
  rewrite (display_nodes_no_drag ui _ _ H0). simpl.
  split; [reflexivity|]. intros l g Hl.
  assert (Hfresh : l <> fresh (dom (heap s) ∪ held (m_graph (this s)))).
  { intros ->. rewrite fresh_loc_unused in Hl. discriminate. }
  destruct (select_input_cases (clicked_input ui s) (this s) (co_owned s)
              (heap s)) as [(Hn & Hs & _)|(_ & E)].
  - rewrite (select_input_change _ _ (co_owned s) (heap s) Hn Hs). simpl.
    destruct (decide (m_graph (this s) = Some l)) as [Hg|Hg].
    + rewrite Hg. destruct (decide (l ∈ co_owned s)) as [Hco|Hco].
      * left. rewrite release_shared by exact Hco.
        rewrite lookup_insert_ne by congruence. exact Hl.
      * right. rewrite release_sole by exact Hco.
        repeat split; try assumption. congruence.
    + left. rewrite release_lookup_ne by exact Hg.
      rewrite lookup_insert_ne by congruence. exact Hl.
  - rewrite E. now left.
Qed.

(** X18.  A selection change lets go of the graph held so far: [m_graph]
    no longer points to it, and it is gone from the store when the explorer
    was its only owner, and left as it was when it has another owner. *)
Theorem selection_change_releases_graph (ui : ImGuiFrame) (s : State)
    (l0 : loc) :
  clicked_input ui s <> "" ->
  m_selected_input (this s) <> clicked_input ui s ->
  m_graph (this s) = Some l0 ->
  let s' := fst (DrawExplorer win_size ui s) in
  m_graph (this s') <> Some l0
  /\ heap s' !! l0 = (if decide (l0 ∈ co_owned s) then heap s !! l0 else None).
Proof.
  intros Hn Hs Hg s'. subst s'.
  destruct (DrawExplorer_parts win_size ui s) as (-> & -> & _).
  rewrite (select_input_change _ _ (co_owned s) (heap s) Hn Hs).
  cbn [fst snd m_graph].
  pose proof (fresh_loc_not_held (heap s) (m_graph (this s))) as Hf.
  rewrite Hg in *.
  split; [congruence|].
  rewrite display_nodes_frame by congruence.
  destruct (decide (l0 ∈ co_owned s)) as [Hco|Hco].
  - rewrite release_shared by exact Hco.
    apply lookup_insert_ne. congruence.
  - now apply release_sole.
Qed.

(** The calls of the node loop, node by node. *)
Lemma drag_calls_filter (ui : ImGuiFrame) (k : nat)
    (nodes : list SchemeNode.t) :
  drag_calls ui k nodes
  = (fun kn : nat * SchemeNode.t =>
       (SchemeNode.id (snd kn), dragged_pos ui (snd kn)))
    <$> filter (fun kn : nat * SchemeNode.t =>
                  IsItemActive ui (fst kn) = true
                  /\ IsMouseDragging ui 0 = true)
               (zip (seq k (length nodes)) nodes).
Proof.
  revert k. induction nodes as [|n nodes IH]; intros k; [reflexivity|].
  simpl. rewrite IH.
  destruct (IsItemActive ui k) eqn:Ha, (IsMouseDragging ui 0) eqn:Hd; simpl.
  - rewrite filter_cons_True by (simpl; auto). reflexivity.
  - rewrite filter_cons_False by (simpl; intros [_ H]; discriminate).
    reflexivity.
  - rewrite filter_cons_False by (simpl; intros [H _]; congruence).
    reflexivity.
  - rewrite filter_cons_False by (simpl; intros [H _]; congruence).
    reflexivity.
Qed.

(** X11.  The [UpdateNodePos] calls of a frame are exactly these, in the
    order of the nodes: one call for each node of the graph on display
    whose button is active under a left-button drag, with that node's id
    and its position moved by the truncated mouse delta.  So no node gets
    two calls in a frame, and there is no call without a graph on display
    or without a left-button drag. *)
Theorem updates_target_displayed_nodes (ui : ImGuiFrame) (s : State) :
  update_calls (snd (DrawExplorer win_size ui s))
  = match displayed_graph ui s with
    | Some (l, g) =>
        (fun kn : nat * SchemeNode.t =>
           (SchemeNode.id (snd kn),
            int2.make
              (int_add (int2.x (SchemeNode.pos (snd kn)))
                       (int_of_float (ImVec2.x (MouseDelta ui))))
              (int_add (int2.y (SchemeNode.pos (snd kn)))
                       (int_of_float (ImVec2.y (MouseDelta ui))))))
        <$> filter (fun kn : nat * SchemeNode.t =>
                      IsItemActive ui (fst kn) = true
                      /\ IsMouseDragging ui 0 = true)
                   (zip (seq 0 (length (GetNodes g))) (GetNodes g))
    | None => []
    end.
Proof.
  destruct (DrawExplorer_parts win_size ui s) as (_ & _ & _ & _ & ->).
  unfold displayed_graph.
  destruct (select_input (clicked_input ui s) (this s) (co_owned s) (heap s))
    as [e h].
  cbn [fst snd]. destruct (m_graph e) as [l|]; [|reflexivity].
  cbn [mbind option_bind].
  destruct (h !! l) as [g|] eqn:Hl.
  - rewrite (display_nodes_at ui l h g Hl). cbn [fst snd mbind option_bind].
    apply drag_calls_filter.
  - unfold display_nodes. rewrite Hl. reflexivity.
Qed.

(** X12.  Until an entry of the layers list is clicked, a created explorer
    shows no graph: over any run of frames without a click it keeps its
    fields, the store is untouched and no [UpdateNodePos] call is made,
    whatever the mouse does on the canvas. *)
Theorem unclicked_explorer_shows_no_graph (material : Material)
    (e : MaterialExplorer) (uis : list ImGuiFrame) (ui : ImGuiFrame)
    (s : State) :
  MaterialExplorer_Create material = Some e ->
  this s = e ->
  Forall no_click uis -> no_click ui ->
  this (frames win_size uis s) = e
  /\ heap (frames win_size uis s) = heap s
  /\ m_graph e = None
  /\ update_calls (snd (DrawExplorer win_size ui (frames win_size uis s)))
     = [].
Proof.
  rewrite Create_is_ctor. intros Hc He Hq Hq1.
  destruct (ctor_layers_from_table material e Hc) as (_ & _ & _ & Hg & _).
  assert (Hstep : forall ui' s', no_click ui' -> m_graph (this s') = None ->
            this (fst (DrawExplorer win_size ui' s')) = this s'
            /\ heap (fst (DrawExplorer win_size ui' s')) = heap s'
            /\ update_calls (snd (DrawExplorer win_size ui' s')) = []).
  { intros ui' s' Hq' Hg'.
    destruct (DrawExplorer_parts win_size ui' s') as (-> & -> & _ & _ & ->).
    destruct (layers_list_quiet ui' (m_layers (this s')) (input_selected s')
                Hq') as [Hname _].
    unfold clicked_input. rewrite Hname.
    rewrite (select_input_same "" (this s') (co_owned s') (heap s')) by now left.
    simpl. rewrite Hg'. repeat split. }
  assert (Hrun : this (frames win_size uis s) = e
                 /\ heap (frames win_size uis s) = heap s).
  { unfold frames. revert s He.
    induction Hq as [|ui' uis' Hq' _ IH]; intros s He; [now split|].
    simpl. destruct (Hstep ui' s Hq') as (Ht & Hh & _); [now rewrite He|].
    destruct (IH (fst (DrawExplorer win_size ui' s))) as [-> ->];
      [now rewrite Ht|].
    split; [reflexivity | exact Hh]. }
  destruct Hrun as [Ht Hh]. split; [exact Ht|]. split; [exact Hh|].
  split; [exact Hg|].
  apply (Hstep ui (frames win_size uis s) Hq1). now rewrite Ht.
Qed.

(** X13.  With a toolkit that reports an item as active only when some
    item is active, a frame that moves a node does not scroll the canvas. *)
Theorem node_drag_excludes_scrolling (ui : ImGuiFrame) (s : State) :
  (forall k, IsItemActive ui k = true -> IsAnyItemActive ui = true) ->
  update_calls (snd (DrawExplorer win_size ui s)) <> [] ->
  scrolling (fst (DrawExplorer win_size ui s)) = scrolling s.
Proof.
  intros Hany Hlog.
  destruct (DrawExplorer_statics ui s) as [_ ->].
  destruct (DrawExplorer_parts win_size ui s) as (_ & _ & _ & _ & Hu).
  rewrite Hu in Hlog. clear Hu.
  assert (Hact : exists k, IsItemActive ui k = true).
  { destruct (select_input (clicked_input ui s) (this s) (co_owned s)
                (heap s)) as [e h].
    simpl in Hlog. destruct (m_graph e) as [l|]; [|contradiction].
    unfold display_nodes in Hlog.
    destruct (h !! l) as [g|] eqn:Hl; [|contradiction].
    rewrite drag_fold in Hlog. simpl in Hlog.
    destruct (drag_calls ui 0 (GetNodes g)) as [|c cs] eqn:E;
      [contradiction|].
    destruct (drag_calls_only ui (GetNodes g) 0%nat c) as (k & _ & _ & Ha & _);
      [rewrite E; constructor|].
    eauto. }
  destruct Hact as [k Hk]. rewrite (Hany k Hk). simpl.
  now rewrite andb_false_r.
Qed.

End FrameMore.

(** ** Edge cases *)

Section EdgeCases.
Context `{R : Renderer}.
Variable win_size : ImVec2.t.

Lemma collect_disabled (layers : Z) (k : Layers) (acc : list LayerDesc) :
  Z.land layers (to_u32 (layer_value k)) = 0 ->
  collect GetUberLayersDesc layers k acc = Some acc.
Proof.
  intros H. unfold collect, layer_enabled. now rewrite H.
Qed.

Lemma frame_without_layers (ui : ImGuiFrame) (s : State) :
  m_layers (this s) = [] ->
  this (fst (DrawExplorer win_size ui s)) = this s
  /\ selectable_calls (snd (DrawExplorer win_size ui s)) = [].
Proof.
  intros Hl.
  destruct (DrawExplorer_parts win_size ui s) as (-> & _ & _ & -> & _).
  assert (Hc : clicked_input ui s = "")
    by (unfold clicked_input; rewrite Hl; reflexivity).
  rewrite Hc, (select_input_same "" (this s) (co_owned s) (heap s)) by now left.
  rewrite Hl. split; reflexivity.
Qed.

(** X2.  A material in which none of the eight flags is set gives an
    explorer with an empty [m_layers]; such an explorer never shows an
    entry in the layers list and never changes, whatever the frames bring. *)
Theorem material_without_layers (material : Material) :
  (forall k, Z.land (GetLayers material) (to_u32 (layer_value k)) = 0) ->
  MaterialExplorer_ctor material
  = Some {| m_material := material; m_layers := [];
            m_graph := None; m_selected_input := "" |}
  /\ forall (uis : list ImGuiFrame) (ui : ImGuiFrame) (s : State),
       m_layers (this s) = [] ->
       this (frames win_size uis s) = this s
       /\ selectable_calls
            (snd (DrawExplorer win_size ui (frames win_size uis s))) = [].
Proof.
  intros Hoff. split.
  - unfold MaterialExplorer_ctor.
    repeat (rewrite collect_disabled by apply Hoff; simpl). reflexivity.
  - intros uis ui s Hl.
    assert (Hrun : this (frames win_size uis s) = this s).
    { unfold frames. revert s Hl.
      induction uis as [|ui' uis IH]; intros s Hl; [reflexivity|].
      simpl. destruct (frame_without_layers ui' s Hl) as [Ht _].
      rewrite IH; [exact Ht | now rewrite Ht]. }
    split; [exact Hrun|].
    apply frame_without_layers. now rewrite Hrun.
Qed.

End EdgeCases.

(** ** The vector operators *)

Lemma fadd_comm (a b : float) : fadd a b = fadd b a.
Proof.
  unfold fadd.
  destruct a as [sa|sa| |sa ma ea], b as [sb|sb| |sb mb eb];
    try reflexivity; try (destruct sa, sb; reflexivity).
  simpl. now rewrite Z.min_comm, Z.add_comm.
Qed.

Lemma fsub_self (a : float) (v : Q) :
  float_value a = Some v -> fsub a a = S754_zero false.
Proof.
  destruct a as [sa|sa| |sa ma ea]; simpl; try discriminate; intros _.
  - now destruct sa.
  - rewrite Z.min_id.
    destruct (shl_align ma ea ea) as [m' e'].
    now rewrite Z.sub_diag.
Qed.

(** X14.  [operator+] on [ImVec2] is commutative when no component is a
    NaN, and a vector of finite components minus itself is the vector of
    two positive zeros. *)
Theorem ImVec2_operators (a b : ImVec2.t) :
  ImVec2.x a <> S754_nan -> ImVec2.y a <> S754_nan ->
  ImVec2.x b <> S754_nan -> ImVec2.y b <> S754_nan ->
  ImVec2_add a b = ImVec2_add b a
  /\ (forall ax ay : Q,
        float_value (ImVec2.x a) = Some ax ->
        float_value (ImVec2.y a) = Some ay ->
        ImVec2_sub a a = ImVec2.make (S754_zero false) (S754_zero false)).
Proof.
  intros _ _ _ _. unfold ImVec2_add, ImVec2_sub. simpl. split.
  - now rewrite (fadd_comm (ImVec2.x a)), (fadd_comm (ImVec2.y a)).
  - intros ax ay Hx Hy.
    now rewrite (fsub_self _ _ Hx), (fsub_self _ _ Hy).
Qed.

(** ** A count of -1 *)

Lemma binary_round_aux_shape (s : bool) (p : positive) (e : Z) (l : location) :
  -149 < digits p + e ->
  (exists m' e', binary_round_aux 24 128 s (Z.pos p) e l = S754_finite s m' e')
  \/ binary_round_aux 24 128 s (Z.pos p) e l = S754_infinity s.
Proof.
  intros HD. unfold binary_round_aux.
  destruct (shr_fexp_magnitude p e l) as (mrs1 & p1 & -> & Hm1 & HD1); [lia|].
  rewrite Hm1.
  pose proof (round_nearest_even_range (Z.pos p1) (loc_of_shr_record mrs1))
    as Hr.
  destruct (round_nearest_even (Z.pos p1) (loc_of_shr_record mrs1))
    as [|p2|p2] eqn:E2; [lia| |lia].
  pose proof (digits_succ p1 p2 Hr) as Hd2.
  destruct (shr_fexp_magnitude p2 (Z.max e (fexp 24 128 (digits p + e)))
              loc_Exact) as (mrs3 & p3 & -> & Hm3 & _); [lia|].
  rewrite Hm3.
  destruct (_ <=? 128 - 24); [left; eauto | now right].
Qed.

Lemma slot_y_zero_divisor (pos_y size_y : float) (slot_no : Z)
    (ms : positive) (es : Z) :
  0 <= slot_no < 2 ^ 31 ->
  size_y = S754_finite false ms es ->
  valid_binary 24 128 size_y = true ->
  (exists v, float_value pos_y = Some v) ->
  slot_y pos_y size_y slot_no (-1) = S754_infinity false.
Proof.
  intros Hs Hsize Hvalid [v Hv]. subst size_y.
  pose proof (valid_exponent false ms es Hvalid) as Hes.
  unfold slot_y.
  change (fadd (float_of_int (-1)) (float_of_int 1)) with (S754_zero false).
  destruct (divisor_magnitude slot_no Hs) as (ma & ea & -> & Ha).
  unfold fmul, SFmul. simpl xorb.
  assert (HD : -149 < digits (ms * ma) + (es + ea)).
  { pose proof (digits_bounds ma) as [Hl _].
    assert (Hge : 2 ^ (digits ma - 1) <= Z.pos (ms * ma))
      by (rewrite Pos2Z.inj_mul; nia).
    pose proof (digits_above _ _ Hge). lia. }
  assert (Hinf : forall t,
            (exists m' e', t = S754_finite false m' e')
            \/ t = S754_infinity false ->
            fadd pos_y (fdiv t (S754_zero false)) = S754_infinity false).
  { intros t [(m' & e' & ->)| ->]; simpl;
      destruct pos_y; simpl in Hv; try discriminate; reflexivity. }
  apply Hinf. apply binary_round_aux_shape. exact HD.
Qed.

(** X15.  With a count of -1 the divisor [(float)count + 1] is zero: for a
    node of finite position and positive finite height, every slot with
    [slot_no >= 0] is then placed at y = +infinity. *)
Theorem slot_pos_count_minus_one (n : Node.t) (slot_no : Z)
    (ms : positive) (es : Z) :
  0 <= slot_no < 2 ^ 31 ->
  ImVec2.y (Node.size n) = S754_finite false ms es ->
  valid_binary 24 128 (ImVec2.y (Node.size n)) = true ->
  (exists v, float_value (ImVec2.y (Node.pos n)) = Some v) ->
  (Node.inputs_count n = -1 ->
   ImVec2.y (GetInputSlotPos n slot_no) = S754_infinity false)
  /\ (Node.outputs_count n = -1 ->
      ImVec2.y (GetOutputSlotPos n slot_no) = S754_infinity false).
Proof.
  intros Hs Hsize Hvalid Hpos.
  split; intros Hc; simpl; rewrite Hc;
    now apply (slot_y_zero_divisor _ _ slot_no ms es).
Qed.

(** ** Slow drags and runs of drags *)

Lemma int_of_float_below_one (f : float) (v : Q) :
  float_value f = Some v -> (- (1) < v)%Q -> (v < 1)%Q -> int_of_float f = 0.
Proof.
  destruct f as [sg|sg| |sg m e]; simpl; try discriminate; [reflexivity|].
  intros [= <-] Hlo Hhi.
  destruct (Z.leb_spec 0 e) as [He|He].
  - exfalso.
    assert (H1 : 1 <= Z.pos m * 2 ^ e)
      by (assert (0 < 2 ^ e) by (apply Z.pow_pos_nonneg; lia); nia).
    destruct sg; unfold Qlt in *; simpl in *; lia.
  - assert (H2 : 0 < 2 ^ (- e)) by (apply Z.pow_pos_nonneg; lia).
    assert (Hm : Z.pos m < 2 ^ (- e)).
    { destruct sg; unfold Qlt in *; simpl in *;
        rewrite Z2Pos.id in * by exact H2; lia. }
    rewrite Z.div_small by lia. destruct sg; reflexivity.
Qed.

(** X16.  A mouse delta of less than one pixel in each direction is
    truncated to zero: for a node whose position is within [int] range, the
    position handed to [UpdateNodePos] is the node's own position, so such
    a drag does not move the node. *)
Theorem subpixel_drag_keeps_position (ui : ImGuiFrame) (node : SchemeNode.t)
    (vx vy : Q) :
  float_value (ImVec2.x (MouseDelta ui)) = Some vx ->
  float_value (ImVec2.y (MouseDelta ui)) = Some vy ->
  (- (1) < vx)%Q /\ (vx < 1)%Q -> (- (1) < vy)%Q /\ (vy < 1)%Q ->
  - 2 ^ 31 <= int2.x (SchemeNode.pos node) < 2 ^ 31 ->
  - 2 ^ 31 <= int2.y (SchemeNode.pos node) < 2 ^ 31 ->
  dragged_pos ui node = SchemeNode.pos node.
Proof.
  intros Hx Hy [Hx1 Hx2] [Hy1 Hy2] Hpx Hpy. unfold dragged_pos, int_add.
  rewrite (int_of_float_below_one _ _ Hx Hx1 Hx2).
  rewrite (int_of_float_below_one _ _ Hy Hy1 Hy2).
  rewrite !Z.add_0_r, !wrap_int_small by assumption.
  destruct (SchemeNode.pos node); reflexivity.
Qed.

Section RunsMore.
Context `{R : Renderer}.
Variable win_size : ImVec2.t.

Lemma frame_without_click (ui : ImGuiFrame) (s : State) (l : loc)
    (g : GraphScheme) :
  no_click ui -> m_graph (this s) = Some l -> heap s !! l = Some g ->
  this (fst (DrawExplorer win_size ui s)) = this s
  /\ heap (fst (DrawExplorer win_size ui s)) !! l
     = Some (apply_updates (update_calls (snd (DrawExplorer win_size ui s))) g).
Proof.
  intros Hq Hg Hl.
  destruct (DrawExplorer_parts win_size ui s) as (-> & -> & _ & _ & ->).
  destruct (layers_list_quiet ui (m_layers (this s)) (input_selected s) Hq)
    as [Hname _].
  unfold clicked_input. rewrite Hname.
  rewrite (select_input_same "" (this s) (co_owned s) (heap s)) by now left.
  cbn [fst snd]. rewrite Hg, (display_nodes_at ui l (heap s) g Hl).
  cbn [fst snd]. rewrite lookup_insert_eq. split; reflexivity.
Qed.

(** X17.  Over a run of frames without a click the explorer keeps its graph
    object, and the object ends the run as the [UpdateNodePos] calls of the
    frames, applied one after the other in the order they were made, leave
    it: nothing else in [DrawExplorer] changes the graph. *)
Theorem run_of_drags_composes (uis : list ImGuiFrame) (s : State) (l : loc)
    (g : GraphScheme) :
  Forall no_click uis ->
  m_graph (this s) = Some l -> heap s !! l = Some g ->
  this (frames win_size uis s) = this s
  /\ heap (frames win_size uis s) !! l
     = Some (apply_updates (run_update_calls win_size uis s) g).
Proof.
  intros Hq. unfold frames. revert s g.
  induction Hq as [|ui uis Hq1 _ IH]; intros s g Hg Hl.
  - split; [reflexivity | exact Hl].
  - simpl. destruct (frame_without_click ui s l g Hq1 Hg Hl) as [Ht Hh].
    destruct (IH (fst (DrawExplorer win_size ui s)) _
                ltac:(rewrite Ht; exact Hg) Hh) as [Ht' Hh'].
    split; [now rewrite Ht', Ht|].
    rewrite Hh'. f_equal. symmetry. apply apply_updates_app.
Qed.

End RunsMore.

(** ** The theorems at work on the sample renderer *)

(** The constructor on the sample material builds the sample explorer. *)
Example ctor_sample :
  @MaterialExplorer_ctor sample_renderer 25 = Some sample_explorer.
Proof. reflexivity. Qed.

Lemma ctor_collects_enabled_layers_witness :
  (forall a b : Layers,
     to_u32 (sample_layer_value a) = to_u32 (sample_layer_value b) -> a = b)
  /\ exists e : @MaterialExplorer sample_renderer,
       @MaterialExplorer_ctor sample_renderer 25 = Some e
       /\ m_material e = 25
       /\ (forall d : LayerDesc,
             d ∈ m_layers e <->
             d ∈ GetUberLayersDesc
             /\ Z.land 25 (to_u32 (sample_layer_value (fst d))) <> 0)
       /\ NoDup (m_layers e).
Proof.
  assert (Hinj : forall a b : Layers,
     to_u32 (sample_layer_value a) = to_u32 (sample_layer_value b) -> a = b).
  { intros a b H; destruct a, b; try reflexivity;
      vm_compute in H; discriminate H. }
  split; [exact Hinj|].
  exact (@ctor_collects_enabled_layers sample_renderer 25 Hinj).
Defined.

Lemma layers_list_enumerates_inputs_witness :
  Z.of_nat (length (listed_inputs (m_layers (this sample_state)))) < 2 ^ 31
  /\ label <$> selectable_calls
                 (snd (DrawExplorer sample_win_size (click_frame 1) sample_state))
     = [ "uberv2.emission.color";
         "uberv2.reflection.color";
         "uberv2.reflection.roughness";
         "uberv2.reflection.anisotropy";
         "uberv2.reflection.anisotropy_rotation";
         "uberv2.reflection.ior";
         "uberv2.reflection.metalness";
         "uberv2.diffuse.color" ]
  /\ index <$> selectable_calls
                 (snd (DrawExplorer sample_win_size (click_frame 1) sample_state))
     = [0; 1; 2; 3; 4; 5; 6; 7].
Proof.
  assert (H : Z.of_nat (length (listed_inputs (m_layers (this sample_state))))
              < 2 ^ 31) by (vm_compute; reflexivity).
  split; [exact H|].
  exact (@layers_list_enumerates_inputs sample_renderer sample_win_size
           (click_frame 1) sample_state H).
Defined.

Lemma selection_change_rebuilds_graph_witness :
  clicked_input (click_frame 1) sample_state <> ""
  /\ m_selected_input (this sample_state)
     <> clicked_input (click_frame 1) sample_state
  /\ IsMouseDragging (click_frame 1) 0 = false
  /\ m_selected_input
       (this (fst (DrawExplorer sample_win_size (click_frame 1) sample_state)))
     = "uberv2.reflection.color"
  /\ exists l,
       m_graph
         (this (fst (DrawExplorer sample_win_size (click_frame 1)
                       sample_state)))
       = Some l
       /\ heap (fst (DrawExplorer sample_win_size (click_frame 1)
                       sample_state)) !! l
          = Some (sample_create "uberv2.reflection.color" (int2.make 160 100)).
Proof.
  assert (H1 : clicked_input (click_frame 1) sample_state <> "")
    by (vm_compute; discriminate).
  assert (H2 : m_selected_input (this sample_state)
               <> clicked_input (click_frame 1) sample_state)
    by (vm_compute; discriminate).
  assert (H3 : IsMouseDragging (click_frame 1) 0 = false) by reflexivity.
  split; [exact H1|]. split; [exact H2|]. split; [exact H3|].
  destruct (@selection_change_rebuilds_graph sample_renderer
              sample_win_size (click_frame 1) sample_state H1 H2)
    as (Hsel & l & Hg & _ & _ & _ & Hquiet).
  split; [exact Hsel|].
  exists l. split; [exact Hg | exact (Hquiet H3)].
Defined.

Lemma no_selection_change_keeps_graph_witness :
  ((forall k, Selectable (click_frame 7) k = false)
   \/ clicked_input (click_frame 7) sample_state_graph
      = m_selected_input (this sample_state_graph))
  /\ m_graph (this (fst (DrawExplorer sample_win_size (click_frame 7)
                           sample_state_graph)))
     = Some 1%positive.
Proof.
  assert (H : (forall k, Selectable (click_frame 7) k = false)
              \/ clicked_input (click_frame 7) sample_state_graph
                 = m_selected_input (this sample_state_graph))
    by (right; vm_compute; reflexivity).
  split; [exact H|].
  exact (proj1 (@no_selection_change_keeps_graph sample_renderer
                  sample_win_size (click_frame 7) sample_state_graph H)).
Defined.

Lemma drag_relays_node_position_witness :
  displayed_graph (drag_frame 1) sample_state_graph
  = Some (1%positive, sample_graph)
  /\ sample_graph !! 1%nat
     = Some (SchemeNode.make 1 (int2.make 360 100) (int2.make 120 40))
  /\ IsItemActive (drag_frame 1) 1 = true
  /\ IsMouseDragging (drag_frame 1) 0 = true
  /\ heap (fst (DrawExplorer sample_win_size (drag_frame 1) sample_state_graph))
       !! 1%positive
     = Some (@UpdateNodePos sample_renderer 1 (int2.make 363 96) sample_graph).
Proof.
  assert (H1 : displayed_graph (drag_frame 1) sample_state_graph
               = Some (1%positive, sample_graph))
    by (vm_compute; reflexivity).
  assert (H2 : @GetNodes sample_renderer sample_graph !! 1%nat
               = Some (SchemeNode.make 1 (int2.make 360 100)
                         (int2.make 120 40)))
    by (vm_compute; reflexivity).
  assert (H3 : IsItemActive (drag_frame 1) 1 = true) by reflexivity.
  assert (H4 : IsMouseDragging (drag_frame 1) 0 = true) by reflexivity.
  assert (H5 : forall i, i <> 1%nat -> IsItemActive (drag_frame 1) i = false)
    by (intros i Hi; apply Nat.eqb_neq; exact Hi).
  repeat (split; [assumption|]).
  exact (proj2 (proj2 (proj2 (proj2
           (@drag_relays_node_position sample_renderer sample_win_size
              (drag_frame 1) sample_state_graph 1%positive sample_graph
              1%nat _ H1 H2 H3 H4))) H5)).
Defined.


(** The theorem covers slots that round: slot 0 of the two inputs of the
    node at y = 100 of height 40 is at 100 + 40/3; the quotient and the sum
    round, and the slot is computed at 113.33333587646484375, strictly
    inside the node and well within half a spacing of its place. *)
Example thirds_slot_rounds_inside :
  ~ slot_y_exact (ImVec2.y (Node.pos thirds_node))
                 (ImVec2.y (Node.size thirds_node))
                 0 (Node.inputs_count thirds_node)
  /\ float_value (ImVec2.y (GetInputSlotPos thirds_node 0))
     = Some (14854827 # 131072)
  /\ strictly_inside (ImVec2.y (Node.pos thirds_node))
                     (ImVec2.y (Node.size thirds_node))
                     (ImVec2.y (GetInputSlotPos thirds_node 0))
  /\ within_half_spacing (ImVec2.y (Node.pos thirds_node))
                         (ImVec2.y (Node.size thirds_node))
                         0 (Node.inputs_count thirds_node)
                         (ImVec2.y (GetInputSlotPos thirds_node 0)).
Proof.
  split; [vm_compute; intros (_ & H & _); discriminate H|].
  split; [reflexivity|].
  apply slot_y_ordinary; [simpl; lia|].
  split; [reflexivity|vm_compute; repeat split; discriminate].
Qed.


(** ** The further properties at work on the sample renderer *)

Lemma ctor_layers_in_test_order_witness :
  (forall a b : Layers,
     to_u32 (sample_layer_value a) = to_u32 (sample_layer_value b) -> a = b)
  /\ exists e : @MaterialExplorer sample_renderer,
       @MaterialExplorer_ctor sample_renderer 25 = Some e
       /\ fst <$> m_layers e
          = filter (fun k => @layer_enabled sample_renderer 25 k = true)
                   [ kEmissionLayer; kTransparencyLayer; kCoatingLayer;
                     kReflectionLayer; kDiffuseLayer; kRefractionLayer;
                     kSSSLayer; kShadingNormalLayer ].
Proof.
  assert (Hinj : forall a b : Layers,
     to_u32 (sample_layer_value a) = to_u32 (sample_layer_value b) -> a = b).
  { intros a b H; destruct a, b; try reflexivity;
      vm_compute in H; discriminate H. }
  split; [exact Hinj|].
  exact (@ctor_layers_in_test_order sample_renderer 25 Hinj).
Defined.

Lemma material_without_layers_witness :
  (forall k, Z.land 256 (to_u32 (sample_layer_value k)) = 0)
  /\ @MaterialExplorer_ctor sample_renderer 256
     = Some (@Build_MaterialExplorer sample_renderer 256 [] None "").
Proof.
  assert (H : forall k, Z.land 256 (to_u32 (sample_layer_value k)) = 0)
    by (intros k; destruct k; reflexivity).
  split; [exact H|].
  exact (proj1 (@material_without_layers sample_renderer sample_win_size
                  256 H)).
Defined.

Lemma constructed_list_indices_witness :
  @MaterialExplorer_ctor sample_renderer 25 = Some sample_explorer
  /\ this sample_state = sample_explorer
  /\ index <$> selectable_calls
                 (snd (DrawExplorer sample_win_size (click_frame 7)
                         (frames sample_win_size
                            [click_frame 1; drag_frame 0] sample_state)))
     = Z.of_nat <$> seq 0 (length (listed_inputs (m_layers sample_explorer))).
Proof.
  assert (H1 : @MaterialExplorer_ctor sample_renderer 25 = Some sample_explorer)
    by reflexivity.
  assert (H2 : this sample_state = sample_explorer) by reflexivity.
  split; [exact H1|]. split; [exact H2|].
  exact (proj2 (@constructed_list_indices sample_renderer sample_win_size
                  25 sample_explorer [click_frame 1; drag_frame 0]
                  (click_frame 7) sample_state H1 H2)).
Defined.

Lemma last_click_selects_witness :
  listed_inputs (m_layers (this sample_state)) !! 3%nat
  = Some "uberv2.reflection.anisotropy"
  /\ Selectable double_click_frame 3 = true
  /\ (forall j,
        (3 < j < length (listed_inputs (m_layers (this sample_state))))%nat ->
        Selectable double_click_frame j = false)
  /\ Z.of_nat (length (listed_inputs (m_layers (this sample_state)))) < 2 ^ 31
  /\ "uberv2.reflection.anisotropy" <> ""
  /\ clicked_input double_click_frame sample_state
     = "uberv2.reflection.anisotropy"
  /\ input_selected
       (fst (DrawExplorer sample_win_size double_click_frame sample_state))
     = 3
  /\ m_selected_input
       (this (fst (DrawExplorer sample_win_size double_click_frame
                     sample_state)))
     = "uberv2.reflection.anisotropy".
Proof.
  assert (H1 : listed_inputs (m_layers (this sample_state)) !! 3%nat
               = Some "uberv2.reflection.anisotropy") by reflexivity.
  assert (H2 : Selectable double_click_frame 3 = true) by reflexivity.
  assert (H3 : forall j,
            (3 < j < length (listed_inputs (m_layers (this sample_state))))%nat
            -> Selectable double_click_frame j = false).
  { intros j Hj. simpl.
    destruct (Nat.eqb_spec j 1) as [->|_]; [lia|].
    destruct (Nat.eqb_spec j 3) as [->|_]; [lia|reflexivity]. }
  assert (H4 : Z.of_nat (length (listed_inputs (m_layers (this sample_state))))
               < 2 ^ 31) by (vm_compute; reflexivity).
  assert (H5 : "uberv2.reflection.anisotropy" <> "") by discriminate.
  repeat (split; [assumption|]).
  exact (@last_click_selects sample_renderer sample_win_size
           double_click_frame sample_state 3
           "uberv2.reflection.anisotropy" H1 H2 H3 H4 H5).
Defined.

Lemma highlighted_entry_witness :
  no_click (drag_frame 1)
  /\ Z.of_nat (length (listed_inputs (m_layers (this sample_state_graph))))
     < 2 ^ 31
  /\ selectable_calls
       (snd (DrawExplorer sample_win_size (drag_frame 1) sample_state_graph))
       !! 7%nat
     = Some {| label := "uberv2.diffuse.color"; selected := true; index := 7 |}
  /\ true = (Z.of_nat 7 =? input_selected sample_state_graph).
Proof.
  assert (H1 : no_click (drag_frame 1)) by (intros k; reflexivity).
  assert (H2 : Z.of_nat (length (listed_inputs
                                   (m_layers (this sample_state_graph))))
               < 2 ^ 31) by (vm_compute; reflexivity).
  assert (H3 : selectable_calls
                 (snd (DrawExplorer sample_win_size (drag_frame 1)
                         sample_state_graph)) !! 7%nat
               = Some {| label := "uberv2.diffuse.color"; selected := true;
                         index := 7 |}) by reflexivity.
  repeat (split; [assumption|]).
  exact (proj1 (@highlighted_entry sample_renderer sample_win_size
                  (drag_frame 1) sample_state_graph 7 _ H1 H2 H3)).
Defined.

Lemma graph_pointer_stays_valid_witness :
  graph_in_store sample_state_graph
  /\ graph_in_store
       (frames sample_win_size [drag_frame 1; click_frame 2]
          sample_state_graph).
Proof.
  assert (H : graph_in_store sample_state_graph).
  { intros l Hl. injection Hl as <-. vm_compute. eauto. }
  split; [exact H|].
  exact (@graph_pointer_stays_valid sample_renderer sample_win_size
           [drag_frame 1; click_frame 2] sample_state_graph H).
Defined.

Lemma constructed_selection_consistent_witness :
  @MaterialExplorer_Create sample_renderer 25 = Some sample_explorer
  /\ this sample_state = sample_explorer
  /\ selection_consistent
       (frames sample_win_size [click_frame 1; drag_frame 0] sample_state).
Proof.
  assert (H1 : @MaterialExplorer_Create sample_renderer 25
               = Some sample_explorer) by reflexivity.
  assert (H2 : this sample_state = sample_explorer) by reflexivity.
  split; [exact H1|]. split; [exact H2|].
  exact (proj1 (@constructed_selection_consistent sample_renderer
                  sample_win_size 25 sample_explorer
                  [click_frame 1; drag_frame 0] sample_state H1 H2)).
Defined.

Lemma same_click_twice_witness :
  clicked_input (click_frame 7) sample_state <> ""
  /\ clicked_input click_drag_frame
       (fst (DrawExplorer sample_win_size (click_frame 7) sample_state))
     = clicked_input (click_frame 7) sample_state
  /\ this (fst (DrawExplorer sample_win_size click_drag_frame
                 (fst (DrawExplorer sample_win_size (click_frame 7)
                         sample_state))))
     = this (fst (DrawExplorer sample_win_size (click_frame 7) sample_state)).
Proof.
  assert (H1 : clicked_input (click_frame 7) sample_state <> "")
    by (vm_compute; discriminate).
  assert (H2 : clicked_input click_drag_frame
                 (fst (DrawExplorer sample_win_size (click_frame 7)
                         sample_state))
               = clicked_input (click_frame 7) sample_state)
    by (vm_compute; reflexivity).
  split; [exact H1|]. split; [exact H2|].
  exact (proj1 (proj2 (@same_click_twice sample_renderer sample_win_size
                         (click_frame 7) click_drag_frame sample_state
                         H1 H2))).
Defined.

Lemma idle_frame_is_identity_witness :
  no_click idle_frame /\ Checkbox idle_frame = false
  /\ IsMouseDragging idle_frame 0 = false
  /\ IsMouseDragging idle_frame 2 = false
  /\ fst (DrawExplorer sample_win_size idle_frame sample_state_graph)
     = sample_state_graph.
Proof.
  assert (H1 : no_click idle_frame) by (intros k; reflexivity).
  assert (H2 : Checkbox idle_frame = false) by reflexivity.
  assert (H3 : IsMouseDragging idle_frame 0 = false) by reflexivity.
  assert (H4 : IsMouseDragging idle_frame 2 = false) by reflexivity.
  repeat (split; [assumption|]).
  exact (@idle_frame_is_identity sample_renderer sample_win_size idle_frame
           sample_state_graph H1 H2 H3 H4).
Defined.

Lemma no_drag_no_move_witness :
  IsMouseDragging (click_frame 1) 0 = false
  /\ update_calls
       (snd (DrawExplorer sample_win_size (click_frame 1) sample_state_graph))
     = [].
Proof.
  assert (H1 : IsMouseDragging (click_frame 1) 0 = false) by reflexivity.
  split; [exact H1|].
  exact (proj1 (@no_drag_no_move sample_renderer sample_win_size
                  (click_frame 1) sample_state_graph H1)).
Defined.

Lemma unclicked_explorer_shows_no_graph_witness :
  @MaterialExplorer_Create sample_renderer 25 = Some sample_explorer
  /\ this sample_state = sample_explorer
  /\ Forall no_click [drag_frame 0; drag_frame 1]
  /\ no_click (drag_frame 0)
  /\ update_calls
       (snd (DrawExplorer sample_win_size (drag_frame 0)
               (frames sample_win_size [drag_frame 0; drag_frame 1]
                  sample_state)))
     = [].
Proof.
  assert (H1 : @MaterialExplorer_Create sample_renderer 25
               = Some sample_explorer) by reflexivity.
  assert (H2 : this sample_state = sample_explorer) by reflexivity.
  assert (H3 : Forall no_click [drag_frame 0; drag_frame 1])
    by (repeat constructor).
  assert (H4 : no_click (drag_frame 0)) by (intros k; reflexivity).
  repeat (split; [assumption|]).
  exact (proj2 (proj2 (proj2
           (@unclicked_explorer_shows_no_graph sample_renderer sample_win_size
              25 sample_explorer [drag_frame 0; drag_frame 1] (drag_frame 0)
              sample_state H1 H2 H3 H4)))).
Defined.

Lemma node_drag_excludes_scrolling_witness :
  (forall k, IsItemActive (drag_frame 1) k = true ->
             IsAnyItemActive (drag_frame 1) = true)
  /\ update_calls
       (snd (DrawExplorer sample_win_size (drag_frame 1) sample_state_graph))
     <> []
  /\ scrolling
       (fst (DrawExplorer sample_win_size (drag_frame 1) sample_state_graph))
     = scrolling sample_state_graph.
Proof.
  assert (H1 : forall k, IsItemActive (drag_frame 1) k = true ->
                         IsAnyItemActive (drag_frame 1) = true)
    by (intros k _; reflexivity).
  assert (H2 : update_calls
                 (snd (DrawExplorer sample_win_size (drag_frame 1)
                         sample_state_graph)) <> [])
    by (vm_compute; discriminate).
  split; [exact H1|]. split; [exact H2|].
  exact (@node_drag_excludes_scrolling sample_renderer sample_win_size
           (drag_frame 1) sample_state_graph H1 H2).
Defined.

Lemma slot_pos_count_minus_one_witness :
  0 <= 0 < 2 ^ 31
  /\ ImVec2.y (Node.size uncounted_node) = S754_finite false 10485760 (-18)
  /\ valid_binary 24 128 (ImVec2.y (Node.size uncounted_node)) = true
  /\ (exists v, float_value (ImVec2.y (Node.pos uncounted_node)) = Some v)
  /\ Node.inputs_count uncounted_node = -1
  /\ ImVec2.y (GetInputSlotPos uncounted_node 0) = S754_infinity false.
Proof.
  assert (H1 : 0 <= 0 < 2 ^ 31) by lia.
  assert (H2 : ImVec2.y (Node.size uncounted_node)
               = S754_finite false 10485760 (-18)) by reflexivity.
  assert (H3 : valid_binary 24 128 (ImVec2.y (Node.size uncounted_node))
               = true) by reflexivity.
  assert (H4 : exists v,
            float_value (ImVec2.y (Node.pos uncounted_node)) = Some v)
    by (eexists; reflexivity).
  assert (H5 : Node.inputs_count uncounted_node = -1) by reflexivity.
  repeat (split; [assumption|]).
  exact (proj1 (slot_pos_count_minus_one uncounted_node 0 _ _ H1 H2 H3 H4)
           H5).
Defined.

Lemma subpixel_drag_keeps_position_witness :
  float_value (ImVec2.x (MouseDelta slow_drag_frame)) = Some (8388608 # 33554432)
  /\ float_value (ImVec2.y (MouseDelta slow_drag_frame))
     = Some (- (8388608 # 16777216))%Q
  /\ ((- (1) < 8388608 # 33554432)%Q /\ (8388608 # 33554432 < 1)%Q)
  /\ ((- (1) < - (8388608 # 16777216))%Q /\ (- (8388608 # 16777216) < 1)%Q)
  /\ - 2 ^ 31 <= 160 < 2 ^ 31
  /\ - 2 ^ 31 <= 100 < 2 ^ 31
  /\ dragged_pos slow_drag_frame
       (SchemeNode.make 0 (int2.make 160 100) (int2.make 120 40))
     = int2.make 160 100.
Proof.
  assert (H1 : float_value (ImVec2.x (MouseDelta slow_drag_frame))
               = Some (8388608 # 33554432)) by reflexivity.
  assert (H2 : float_value (ImVec2.y (MouseDelta slow_drag_frame))
               = Some (- (8388608 # 16777216))%Q) by reflexivity.
  assert (H3 : (- (1) < 8388608 # 33554432)%Q /\ (8388608 # 33554432 < 1)%Q)
    by (split; reflexivity).
  assert (H4 : (- (1) < - (8388608 # 16777216))%Q
               /\ (- (8388608 # 16777216) < 1)%Q) by (split; reflexivity).
  assert (H5 : - 2 ^ 31 <= 160 < 2 ^ 31) by lia.
  assert (H6 : - 2 ^ 31 <= 100 < 2 ^ 31) by lia.
  repeat (split; [assumption|]).
  exact (subpixel_drag_keeps_position slow_drag_frame
           (SchemeNode.make 0 (int2.make 160 100) (int2.make 120 40))
           _ _ H1 H2 H3 H4 H5 H6).
Defined.

Lemma run_of_drags_composes_witness :
  Forall no_click [drag_frame 1; drag_frame 0]
  /\ m_graph (this sample_state_graph) = Some 1%positive
  /\ heap sample_state_graph !! 1%positive = Some sample_graph
  /\ heap (frames sample_win_size [drag_frame 1; drag_frame 0]
             sample_state_graph) !! 1%positive
     = Some [ SchemeNode.make 0 (int2.make 163 96) (int2.make 120 40);
              SchemeNode.make 1 (int2.make 363 96) (int2.make 120 40) ].
Proof.
  assert (H1 : Forall no_click [drag_frame 1; drag_frame 0])
    by (repeat constructor).
  assert (H2 : m_graph (this sample_state_graph) = Some 1%positive)
    by reflexivity.
  assert (H3 : heap sample_state_graph !! 1%positive = Some sample_graph)
    by (vm_compute; reflexivity).
  repeat (split; [assumption|]).
  exact (proj2 (@run_of_drags_composes sample_renderer sample_win_size
                  [drag_frame 1; drag_frame 0] sample_state_graph
                  1%positive sample_graph H1 H2 H3)).
Defined.

Lemma ImVec2_operators_witness :
  float_of_int 160 <> S754_nan
  /\ float_of_int 100 <> S754_nan
  /\ fdiv (float_of_int 15) (float_of_int 4) <> S754_nan
  /\ S754_infinity true <> S754_nan
  /\ float_value (float_of_int 160) = Some (10485760 # 65536)
  /\ float_value (float_of_int 100) = Some (13107200 # 131072)
  /\ ImVec2_add (ImVec2.make (float_of_int 160) (float_of_int 100))
                (ImVec2.make (fdiv (float_of_int 15) (float_of_int 4))
                             (S754_infinity true))
     = ImVec2_add (ImVec2.make (fdiv (float_of_int 15) (float_of_int 4))
                               (S754_infinity true))
                  (ImVec2.make (float_of_int 160) (float_of_int 100))
  /\ ImVec2_sub (ImVec2.make (float_of_int 160) (float_of_int 100))
                (ImVec2.make (float_of_int 160) (float_of_int 100))
     = ImVec2.make (S754_zero false) (S754_zero false).
Proof.
  assert (H1 : float_of_int 160 <> S754_nan) by (vm_compute; discriminate).
  assert (H2 : float_of_int 100 <> S754_nan) by (vm_compute; discriminate).
  assert (H3 : fdiv (float_of_int 15) (float_of_int 4) <> S754_nan)
    by (vm_compute; discriminate).
  assert (H4 : S754_infinity true <> S754_nan) by discriminate.
  assert (H5 : float_value (float_of_int 160) = Some (10485760 # 65536))
    by reflexivity.
  assert (H6 : float_value (float_of_int 100) = Some (13107200 # 131072))
    by reflexivity.
  repeat (split; [assumption|]).
  destruct (ImVec2_operators
              (ImVec2.make (float_of_int 160) (float_of_int 100))
              (ImVec2.make (fdiv (float_of_int 15) (float_of_int 4))
                           (S754_infinity true))
              H1 H2 H3 H4) as [Hc Hs].
  split; [exact Hc | exact (Hs _ _ H5 H6)].
Defined.

Lemma selection_change_releases_graph_witness :
  clicked_input (click_frame 1) sample_state_graph <> ""
  /\ m_selected_input (this sample_state_graph)
     <> clicked_input (click_frame 1) sample_state_graph
  /\ m_graph (this sample_state_graph) = Some 1%positive
  /\ heap sample_state_graph !! 1%positive = Some sample_graph
  /\ heap (fst (DrawExplorer sample_win_size (click_frame 1)
                  sample_state_graph)) !! 1%positive
     = None.
Proof.
  assert (H1 : clicked_input (click_frame 1) sample_state_graph <> "")
    by (vm_compute; discriminate).
  assert (H2 : m_selected_input (this sample_state_graph)
               <> clicked_input (click_frame 1) sample_state_graph)
    by (vm_compute; discriminate).
  assert (H3 : m_graph (this sample_state_graph) = Some 1%positive)
    by reflexivity.
  assert (H4 : heap sample_state_graph !! 1%positive = Some sample_graph)
    by (vm_compute; reflexivity).
  repeat (split; [assumption|]).
  exact (proj2 (@selection_change_releases_graph sample_renderer
                  sample_win_size (click_frame 1) sample_state_graph
                  1%positive H1 H2 H3)).
Defined.
